(** * reve-go: the retrying HTTP transport, its error classifier and the
      pre-flight validator, embedded from the Go sources

    - [internal/transport/errors.go]  : [APIError], [ParseError], [Retrier]
    - [internal/transport/client.go]  : [buildRequest], [execute], [executeRaw]
    - [internal/validator/validator.go] : [ValidateScaling]

    Go values are modelled as follows.  [int] is a 64-bit two's-complement
    integer carried by [Z] (see [int_wrap]); [string] is [String.string] and
    [[]byte] is [list byte], with Go's conversion [string(b)] written
    [string_of_bytes]; [float64] is the IEEE-754 value type [spec_float]
    of the Standard Library; [error] is the inductive [error]; a Go function
    returning [(T, error)] returns a pair of options; [http.Header] is a
    finite map from canonical keys to value lists. *)

From Stdlib Require Import ZArith List String Ascii Strings.Byte Bool Lia SpecFloat.
From stdpp Require Import base option gmap strings list.
Import ListNotations.

Local Open Scope string_scope.
Local Open Scope list_scope.
Local Open Scope Z_scope.

(** ** Go primitives *)

Module Go.

(** [int] on the 64-bit targets the SDK is built for. *)
Definition MinInt : Z := - 2 ^ 63.
Definition MaxInt : Z := 2 ^ 63 - 1.

Definition is_int (z : Z) : Prop := MinInt <= z <= MaxInt.

(** Two's-complement wrap-around of integer arithmetic. *)
Definition int_wrap (z : Z) : Z := (z + 2 ^ 63) mod 2 ^ 64 - 2 ^ 63.

(** [string(b)] for [b []byte]. *)
Definition string_of_bytes (b : list byte) : string := string_of_list_byte b.

(** [context.Context.Err()] once the context is done. *)
Inductive CtxError : Type :=
| Canceled
| DeadlineExceeded.

(** A decoded JSON value, as [encoding/json] stores it in an [any]. *)
#[local] Set Warnings "-register-all".
Inductive JsonValue : Type :=
| JNull
| JBool (b : bool)
| JNumber (repr : string)
| JString (s : string)
| JArray (items : list JsonValue)
| JObject (fields : list (string * JsonValue)).

#[local] Set Warnings "+register-all".

(** [net/http.Header]: canonical key to the list of its values. *)
Abbreviation Header := (gmap string (list string)).

(** [Header.Get]: the first value stored under the key, [""] when the key
    is absent.  Every key the transport asks for is already in canonical
    form. *)
Definition Header_Get (h : Header) (key : string) : string :=
  match h !! key with
  | Some (v :: _) => v
  | _ => ""
  end.

(** [Header.Set]: replaces whatever was stored under the key. *)
Definition Header_Set (h : Header) (key value : string) : Header :=
  <[key := [value]]> h.

(** [http.Response], as far as the transport reads it.  [resp_Body] is
    what [io.ReadAll(resp.Body)] returns: the bytes received and, when the
    stream breaks, the error. *)
Record http_Response : Type := {
  resp_StatusCode : Z;
  resp_Header : Header;
  resp_Body : list byte * option string
}.

Definition io_ReadAll (resp : http_Response) : list byte * option string :=
  resp_Body resp.

(** [bytes.Reader]: the slice it reads from and the index of the next
    byte.  Readers are objects: the store [Heap] holds the ones allocated
    so far, and a reader is known by its index there. *)
Record Reader : Type := {
  rd_s : list byte;
  rd_i : nat
}.

Abbreviation Heap := (list Reader).

(** [bytes.NewReader(b)] *)
Definition bytes_NewReader (b : list byte) (h : Heap) : nat * Heap :=
  (length h, h ++ [{| rd_s := b; rd_i := 0 |}]).

(** [io.ReadAll] of a reader: everything not yet consumed. *)
Definition Reader_ReadAll (l : nat) (h : Heap) : list byte * Heap :=
  match h !! l with
  | Some rd =>
      (drop (rd_i rd) (rd_s rd),
       <[l := {| rd_s := rd_s rd; rd_i := length (rd_s rd) |}]> h)
  | None => ([], h)
  end.

(** [http.Request], as far as the transport fills it.  [req_URL] is the
    text of the parsed URL the request holds; [req_Body] is the reader the
    body is sent from; [req_GetBody], when set, returns a reader and an
    error. *)
Record http_Request : Type := {
  req_Method : string;
  req_URL : string;
  req_Header : Header;
  req_Body : option nat;
  req_GetBody : option (Heap -> (nat * option string) * Heap)
}.

End Go.

Export Go.

(** The functions of Go's standard library that the transport calls but
    does not define.  They are an interface of the embedding: every theorem
    holds for any implementation of it. *)
Class GoRuntime : Type := {
  (** the dynamic values a request body of type [any] can hold *)
  GoValue : Type;
  (** [json.Marshal]: the serialization, or the text of the error *)
  json_Marshal : GoValue -> list byte + string;
  (** [json.Unmarshal(body, apiErr)] into a struct whose JSON-tagged fields
      are zero: the values of [error_code], [message] and [params] it
      leaves there, and the error it returns (a decoding error can come
      after some fields were already stored) *)
  json_Unmarshal : list byte ->
                   (string * string * option (list (string * JsonValue)))
                   * option string;
  (** [http.StatusText] *)
  http_StatusText : Z -> string;
  (** [fmt.Sscanf(val, "%d", &n)]: the integer stored in [n], [None] when
      the scan fails and [n] is left untouched *)
  fmt_Sscanf_d : string -> option Z;
  (** [http.NewRequestWithContext] refuses some methods and URLs: the text
      of its error *)
  http_NewRequest_error : string -> string -> option string;
  (** [http.NewRequestWithContext] parses the URL it is given and stores
      the result, not the text it was given: the text of the stored URL,
      [req.URL.String()] *)
  http_NewRequest_URL : string -> string
}.

(** [http.NewRequestWithContext(ctx, method, url, body)].  An empty method
    stands for GET, and the URL stored is the parsed one.  The [GetBody] it
    installs for a [bytes.Reader] is not modelled: [buildRequest] overwrites
    the field before the request is used. *)
Definition http_NewRequestWithContext `{GoRuntime} (method url : string)
    (body : option nat) : http_Request + string :=
  match http_NewRequest_error method url with
  | Some err => inr err
  | None =>
      inl {| req_Method := if String.eqb method "" then "GET" else method;
             req_URL := http_NewRequest_URL url;
             req_Header := ∅;
             req_Body := body;
             req_GetBody := None |}
  end.

(** ** Package transport *)

Module Transport.

(** *** internal/transport/errors.go *)

(** [type ErrorCode string] and the known codes. *)
Definition ErrorCode : Type := string.

Definition ErrCodeMissingParam : ErrorCode := "MISSING_REQUIRED_PARAMETER".
Definition ErrCodePromptTooLong : ErrorCode := "PROMPT_TOO_LONG".
Definition ErrCodeContentViolation : ErrorCode := "CONTENT_POLICY_VIOLATION".
Definition ErrCodeIndexOutOfBounds : ErrorCode := "INDEX_OUT_OF_BOUNDS".
Definition ErrCodeInvalidAPIKey : ErrorCode := "INVALID_API_KEY".
Definition ErrCodeInsufficientFunds : ErrorCode := "INSUFFICIENT_CREDITS".
Definition ErrCodeRateLimit : ErrorCode := "RATE_LIMIT_EXCEEDED".
Definition ErrCodeInternal : ErrorCode := "INTERNAL_ERROR".

(** The [net/http] status constants the package names. *)
Definition StatusUnauthorized : Z := 401.
Definition StatusPaymentRequired : Z := 402.
Definition StatusTooManyRequests : Z := 429.
Definition StatusInternalServerError : Z := 500.
Definition StatusBadGateway : Z := 502.
Definition StatusServiceUnavailable : Z := 503.
Definition StatusGatewayTimeout : Z := 504.

Record APIError : Type := mkAPIError {
  Code : ErrorCode;
  Message : string;
  Params : option (list (string * JsonValue));
  StatusCode : Z;
  RequestID : string
}.

(** The dynamic types an [error] handled by the transport can have:
    pointers to [APIError] and to [RequestError] (which wraps another
    error), the context's own error, and any other error value. *)
Inductive error : Type :=
| ErrAPI (e : APIError)
| ErrRequest (Op : string) (Err : error)
| ErrContext (c : CtxError)
| ErrOther (msg : string).

(** [isRetryableStatus] *)
Definition isRetryableStatus (code : Z) : bool :=
  if code =? StatusTooManyRequests then true
  else if code =? StatusInternalServerError then true
  else if code =? StatusBadGateway then true
  else if code =? StatusServiceUnavailable then true
  else if code =? StatusGatewayTimeout then true
  else false.

(** [APIError.Retryable] *)
Definition Retryable (e : APIError) : bool :=
  isRetryableStatus (StatusCode e).

(** [APIError.IsRateLimit] and its siblings *)
Definition IsRateLimit (e : APIError) : bool :=
  String.eqb (Code e) ErrCodeRateLimit || (StatusCode e =? StatusTooManyRequests).

Definition IsInsufficientFunds (e : APIError) : bool :=
  String.eqb (Code e) ErrCodeInsufficientFunds
  || (StatusCode e =? StatusPaymentRequired).

Definition IsContentViolation (e : APIError) : bool :=
  String.eqb (Code e) ErrCodeContentViolation.

Definition IsAuthError (e : APIError) : bool :=
  String.eqb (Code e) ErrCodeInvalidAPIKey || (StatusCode e =? StatusUnauthorized).

(** [ParseError] *)
Definition ParseError `{GoRuntime} (resp : http_Response) (body : list byte)
    : APIError :=
  let '((code, message, params), err) := json_Unmarshal body in
  let message :=
    match err with
    | Some _ =>
        let message := string_of_bytes body in
        if String.eqb message "" then http_StatusText (resp_StatusCode resp)
        else message
    | None => message
    end in
  let code :=
    if String.eqb code "" then
      if resp_StatusCode resp =? StatusUnauthorized then ErrCodeInvalidAPIKey
      else if resp_StatusCode resp =? StatusPaymentRequired
           then ErrCodeInsufficientFunds
      else if resp_StatusCode resp =? StatusTooManyRequests then ErrCodeRateLimit
      else if resp_StatusCode resp =? StatusInternalServerError
           then ErrCodeInternal
      else code
    else code in
  {| Code := code;
     Message := message;
     Params := params;
     StatusCode := resp_StatusCode resp;
     RequestID := Header_Get (resp_Header resp) "X-Reve-Request-Id" |}.

(** *** The retrier *)

(** [time.Duration] counts nanoseconds in an [int64]. *)
Definition Duration : Type := Z.

Record Retrier : Type := {
  maxRetries : Z;
  minWait : Duration;
  maxWait : Duration
}.

Definition NewRetrier (maxRetries : Z) (minWait maxWait : Duration) : Retrier :=
  {| maxRetries := maxRetries; minWait := minWait; maxWait := maxWait |}.

(** [Retrier.shouldRetry]: the type assertion succeeds only when the
    dynamic type of [err] is a pointer to [APIError]. *)
Definition shouldRetry (r : Retrier) (err : error) : bool :=
  match err with
  | ErrAPI apiErr => Retryable apiErr
  | _ => false
  end.

(** What a run of the retrier does to the outside, in order. *)
Inductive Event : Type :=
| EvWait (attempt : Z)   (* r.wait(ctx, attempt) was entered *)
| EvCall                 (* fn() was called: one attempt *)
| EvCtxErr.              (* ctx.Err() was read after a failed attempt *)

Definition is_call (e : Event) : bool :=
  match e with EvCall => true | _ => false end.

(** The number of attempts a trace contains. *)
Definition calls (tr : list Event) : nat := length (List.filter is_call tr).

(** The surroundings of one run: the closure [fn] and the context [ctx].
    Both are indexed by [i], the number of attempts made before the one
    the loop iteration is about:
    - [fn i] is what the call of [fn] in that iteration returns;
    - [wait_select i] is the case the [select] of [wait] runs before that
      call: [Some c] when it receives from [ctx.Done()], [ctx.Err()] being
      [c] -- the only case that can run when the context becomes done while
      the timer is pending; [None] when it receives from
      [time.After(backoff)].  The timer runs for
      [calculateBackoff(attempt)], a [float64] computation on a random
      draw, which has no other effect;
    - [ctx_Err i] is [ctx.Err()] as read after that call has failed
      ([ctx.Err()] keeps its value once it is not nil, so the two reads of
      the source agree). *)
Record World (A : Type) : Type := {
  fn : nat -> option A * option error;
  wait_select : nat -> option CtxError;
  ctx_Err : nat -> option CtxError
}.
Arguments fn {A} _ _.
Arguments wait_select {A} _ _.
Arguments ctx_Err {A} _ _.

(** What one pass through the loop body ends in. *)
Inductive Step (A : Type) : Type :=
| Return (res : option A * option error) (tr : list Event)
| Continue (lastErr : option error) (tr : list Event).
Arguments Return {A} _ _.
Arguments Continue {A} _ _.

Section Retry.
Context {A : Type}.
Variable r : Retrier.
Variable w : World A.

(** [Retrier.wait] *)
Definition wait (attempt : Z) (i : nat) : option error :=
  match wait_select w i with
  | Some c => Some (ErrContext c)
  | None => None
  end.

(** The body of the [for] loop of [Retrier.Do] and [Retrier.DoRaw]. *)
Definition iteration (attempt : Z) (tr : list Event) : Step A :=
  let i := calls tr in
  let '(werr, tr) :=
    if 0 <? attempt then (wait attempt i, tr ++ [EvWait attempt])
    else (None, tr) in
  match werr with
  | Some err => Return (None, Some err) tr
  | None =>
      let '(resp, err) := fn w i in
      let tr := tr ++ [EvCall] in
      match err with
      | None => Return (resp, None) tr
      | Some err =>
          if negb (shouldRetry r err) then Return (None, Some err) tr
          else
            match ctx_Err w i with
            | Some c => Return (None, Some (ErrContext c)) (tr ++ [EvCtxErr])
            | None => Continue (Some err) (tr ++ [EvCtxErr])
            end
      end
  end.

(** [for attempt := 0; attempt <= r.maxRetries; attempt++ { ... }]
    followed by [return nil, lastErr].  [fuel] bounds the number of
    iterations; [None] means it ran out. *)
Fixpoint retry_loop (fuel : nat) (attempt : Z) (lastErr : option error)
    (tr : list Event) : option ((option A * option error) * list Event) :=
  if attempt <=? maxRetries r then
    match fuel with
    | O => None
    | S fuel =>
        match iteration attempt tr with
        | Return res tr => Some (res, tr)
        | Continue lastErr tr =>
            retry_loop fuel (int_wrap (attempt + 1)) lastErr tr
        end
    end
  else Some ((None, lastErr), tr).

Definition retry (fuel : nat)
    : option ((option A * option error) * list Event) :=
  retry_loop fuel 0 None [].

End Retry.

(** *** internal/transport/client.go *)

(** [Request], the request descriptor. *)
Record Request `{GoRuntime} : Type := {
  Method : string;
  Path : string;
  Body : option GoValue;
  Accept : string;
  Breadcrumb : string
}.

Record Response : Type := {
  Resp_Body : list byte;
  Resp_Status : Z;
  Resp_RequestID : string
}.

Record RawResponse : Type := {
  Data : list byte;
  ContentType : string;
  Version : string;
  ContentViolation : bool;
  Raw_RequestID : string;
  CreditsUsed : Z;
  CreditsRemaining : Z
}.

(** [Retrier.Do] and [Retrier.DoRaw]: the two bodies are the same text,
    the first over [Response], the second over [RawResponse]. *)
Definition Do (r : Retrier) (w : World Response) (fuel : nat) :=
  retry r w fuel.

Definition DoRaw (r : Retrier) (w : World RawResponse) (fuel : nat) :=
  retry r w fuel.

(** [Client].  [httpClient] stands for [c.httpClient.Do]: the response, or
    the text of the transport's error.  The [logger] only prints (behind
    [debug]) and is left out, as are the [c.log] lines. *)
Record Client : Type := {
  httpClient : http_Request -> Heap -> http_Response + string;
  baseURL : string;
  apiKey : string;
  userAgent : string;
  debug : bool;
  retrier : Retrier
}.

(** [Client.buildRequest] *)
Definition buildRequest `{GoRuntime} (c : Client) (req : Request) (h : Heap)
    : (http_Request + error) * Heap :=
  let url := baseURL c +:+ Path req in
  let url :=
    if negb (String.eqb (Breadcrumb req) "")
    then url +:+ "?breadcrumb=" +:+ Breadcrumb req
    else url in
  let marshalled :=
    match Body req with
    | Some v =>
        match json_Marshal v with
        | inr err => inr (ErrRequest "marshal" (ErrOther err))
        | inl data =>
            let '(bodyReader, h) := bytes_NewReader data h in
            let bodyData := data in
            let getBody := fun h : Heap =>
              let '(l, h) := bytes_NewReader bodyData h in ((l, None), h) in
            inl (Some bodyReader, Some getBody, h)
        end
    | None => inl (None, None, h)
    end in
  match marshalled with
  | inr err => (inr err, h)
  | inl (bodyReader, getBody, h) =>
      match http_NewRequestWithContext (Method req) url bodyReader with
      | inr err => (inr (ErrRequest "create request" (ErrOther err)), h)
      | inl httpReq =>
          let header := req_Header httpReq in
          let header := Header_Set header "Authorization" ("Bearer " +:+ apiKey c) in
          let header := Header_Set header "Content-Type" "application/json" in
          let header := Header_Set header "User-Agent" (userAgent c) in
          let accept :=
            if negb (String.eqb (Accept req) "") then Accept req
            else "application/json" in
          let header := Header_Set header "Accept" accept in
          (inl {| req_Method := req_Method httpReq;
                  req_URL := req_URL httpReq;
                  req_Header := header;
                  req_Body := req_Body httpReq;
                  req_GetBody := getBody |}, h)
      end
  end.

(** [parseIntHeader] *)
Definition parseIntHeader `{GoRuntime} (resp : http_Response) (key : string) : Z :=
  let val := Header_Get (resp_Header resp) key in
  if String.eqb val "" then 0
  else
    match fmt_Sscanf_d val with
    | Some n => n
    | None => 0
    end.

(** [Client.execute] *)
Definition execute `{GoRuntime} (c : Client) (req : Request) (h : Heap)
    : option Response * option error :=
  match buildRequest c req h with
  | (inr err, _) => (None, Some err)
  | (inl httpReq, h) =>
      match httpClient c httpReq h with
      | inr err => (None, Some (ErrRequest "http" (ErrOther err)))
      | inl resp =>
          match io_ReadAll resp with
          | (_, Some err) =>
              (None, Some (ErrRequest "read response" (ErrOther err)))
          | (body, None) =>
              if resp_StatusCode resp >=? 400
              then (None, Some (ErrAPI (ParseError resp body)))
              else
                (Some {| Resp_Body := body;
                         Resp_Status := resp_StatusCode resp;
                         Resp_RequestID :=
                           Header_Get (resp_Header resp) "X-Reve-Request-Id" |},
                 None)
          end
      end
  end.

(** [Client.executeRaw] *)
Definition executeRaw `{GoRuntime} (c : Client) (req : Request) (h : Heap)
    : option RawResponse * option error :=
  match buildRequest c req h with
  | (inr err, _) => (None, Some err)
  | (inl httpReq, h) =>
      match httpClient c httpReq h with
      | inr err => (None, Some (ErrRequest "http" (ErrOther err)))
      | inl resp =>
          if negb (String.eqb (Header_Get (resp_Header resp) "X-Reve-Error-Code") "")
          then
            let '(body, _) := io_ReadAll resp in
            (None, Some (ErrAPI (ParseError resp body)))
          else
            match io_ReadAll resp with
            | (_, Some err) =>
                (None, Some (ErrRequest "read response" (ErrOther err)))
            | (data, None) =>
                (Some {| Data := data;
                         ContentType := Header_Get (resp_Header resp) "Content-Type";
                         Version := Header_Get (resp_Header resp) "X-Reve-Version";
                         ContentViolation :=
                           String.eqb
                             (Header_Get (resp_Header resp) "X-Reve-Content-Violation")
                             "true";
                         Raw_RequestID :=
                           Header_Get (resp_Header resp) "X-Reve-Request-Id";
                         CreditsUsed := parseIntHeader resp "X-Reve-Credits-Used";
                         CreditsRemaining :=
                           parseIntHeader resp "X-Reve-Credits-Remaining" |},
                 None)
            end
      end
  end.

End Transport.

Export Transport.

(** ** internal/validator/validator.go *)

Module Validator.

(** The sentinel errors of the package. *)
Inductive ValidationError : Type :=
| ErrEmptyPrompt
| ErrPromptTooLong
| ErrEmptyInstruction
| ErrEmptyReferenceImage
| ErrNoReferenceImages
| ErrTooManyReferenceImages
| ErrInvalidAspectRatio
| ErrInvalidUpscaleFactor
| ErrInvalidScaling.

(** [float64]: binary64, 53 bits of precision, exponents below 1024. *)
Definition float64 : Type := spec_float.

(** The [float64] an integer constant converts to. *)
Definition float64_of_Z (z : Z) : float64 := binary_normalize 53 1024 z 0 false.

Definition MaxPromptLength : Z := 2560.
Definition MaxReferenceImages : Z := 6.
Definition MinScaling : float64 := Eval cbv in float64_of_Z 1.
Definition MaxScaling : float64 := Eval cbv in float64_of_Z 15.

(** [ValidateUpscaleFactor] *)
Definition ValidateUpscaleFactor (factor : Z) : option ValidationError :=
  if (factor <? 2) || (factor >? 4) then Some ErrInvalidUpscaleFactor
  else None.

(** [ValidateScaling].  [==], [<] and [>] are the IEEE-754 comparisons. *)
Definition ValidateScaling (scaling : float64) : option ValidationError :=
  if SFeqb scaling (S754_zero false) then None
  else if SFltb scaling MinScaling || SFltb MaxScaling scaling
       then Some ErrInvalidScaling
  else None.

(** [ValidatePrompt].  [len] of a string counts its bytes. *)
Definition ValidatePrompt (prompt : string) : option ValidationError :=
  if String.eqb prompt "" then Some ErrEmptyPrompt
  else if Z.of_nat (String.length prompt) >? MaxPromptLength
       then Some ErrPromptTooLong
  else None.

(** [ValidateInstruction] *)
Definition ValidateInstruction (instruction : string) : option ValidationError :=
  if String.eqb instruction "" then Some ErrEmptyInstruction
  else if Z.of_nat (String.length instruction) >? MaxPromptLength
       then Some ErrPromptTooLong
  else None.

(** [ValidateReferenceImage] *)
Definition ValidateReferenceImage (image : string) : option ValidationError :=
  if String.eqb image "" then Some ErrEmptyReferenceImage else None.

(** [ValidateReferenceImages] *)
Definition ValidateReferenceImages (images : list string) : option ValidationError :=
  if Z.of_nat (length images) =? 0 then Some ErrNoReferenceImages
  else if Z.of_nat (length images) >? MaxReferenceImages
       then Some ErrTooManyReferenceImages
  else None.

(** [ValidateAspectRatio].  Indexing the map with a key it does not hold
    gives [false]. *)
Definition ValidateAspectRatio (ratio : string) : option ValidationError :=
  if String.eqb ratio "" then None
  else
    let valid : gmap string bool :=
      list_to_map
        [("16:9", true); ("9:16", true);
         ("3:2", true); ("2:3", true);
         ("4:3", true); ("3:4", true);
         ("1:1", true); ("auto", true)] in
    if negb (default false (valid !! ratio)) then Some ErrInvalidAspectRatio
    else None.

End Validator.

Export Validator.

(** ** Package types *)

(** The functions of Go's standard library that package [types] calls. *)
Class GoLibrary : Type := {
  (** [filepath.Ext] *)
  filepath_Ext : string -> string;
  (** [strings.ToLower] *)
  strings_ToLower : string -> string;
  (** [base64.StdEncoding.EncodeToString] *)
  base64_EncodeToString : list byte -> string;
  (** [base64.StdEncoding.DecodeString]: the bytes decoded, and the error
      when the input is corrupt *)
  base64_DecodeString : string -> list byte * option string
}.

Module Types.

(** *** aspect ratios *)

Definition AspectRatio : Type := string.

Definition Ratio16x9 : AspectRatio := "16:9".
Definition Ratio9x16 : AspectRatio := "9:16".
Definition Ratio3x2 : AspectRatio := "3:2".
Definition Ratio2x3 : AspectRatio := "2:3".
Definition Ratio4x3 : AspectRatio := "4:3".
Definition Ratio3x4 : AspectRatio := "3:4".
Definition Ratio1x1 : AspectRatio := "1:1".
Definition RatioAuto : AspectRatio := "auto".

(** [AspectRatio.Valid] *)
Definition Valid (r : AspectRatio) : bool :=
  if String.eqb r Ratio16x9 || String.eqb r Ratio9x16 || String.eqb r Ratio3x2
     || String.eqb r Ratio2x3 || String.eqb r Ratio4x3 || String.eqb r Ratio3x4
     || String.eqb r Ratio1x1 || String.eqb r RatioAuto || String.eqb r ""
  then true
  else false.

(** [AspectRatio.Dimensions] *)
Definition Dimensions (r : AspectRatio) : Z * Z :=
  if String.eqb r Ratio16x9 then (16, 9)
  else if String.eqb r Ratio9x16 then (9, 16)
  else if String.eqb r Ratio3x2 then (3, 2)
  else if String.eqb r Ratio2x3 then (2, 3)
  else if String.eqb r Ratio4x3 then (4, 3)
  else if String.eqb r Ratio3x4 then (3, 4)
  else if String.eqb r Ratio1x1 then (1, 1)
  else (0, 0).

Definition ProcessType : Type := string.
Definition ProcessUpscale : ProcessType := "upscale".
Definition ProcessRemoveBackground : ProcessType := "remove_background".

Record Postprocess : Type := {
  Process : ProcessType;
  UpscaleFactor : Z
}.

(** [Upscale] and [RemoveBackground] *)
Definition Upscale (factor : Z) : Postprocess :=
  {| Process := ProcessUpscale; UpscaleFactor := factor |}.

Definition RemoveBackground : Postprocess :=
  {| Process := ProcessRemoveBackground; UpscaleFactor := 0 |}.

(** The error type [ErrInvalidUpscale]. *)
Inductive PostprocessError : Type :=
| ErrInvalidUpscale.

(** [Postprocess.Validate] *)
Definition Validate (p : Postprocess) : option PostprocessError :=
  if String.eqb (Process p) ProcessUpscale then
    if (UpscaleFactor p <? 2) || (UpscaleFactor p >? 4) then Some ErrInvalidUpscale
    else None
  else None.

(** *** output formats *)

Definition OutputFormat : Type := string.

Definition FormatJSON : OutputFormat := "application/json".
Definition FormatPNG : OutputFormat := "image/png".
Definition FormatJPEG : OutputFormat := "image/jpeg".
Definition FormatWebP : OutputFormat := "image/webp".

(** [OutputFormat.Extension] *)
Definition Extension (f : OutputFormat) : string :=
  if String.eqb f FormatPNG then ".png"
  else if String.eqb f FormatJPEG then ".jpeg"
  else if String.eqb f FormatWebP then ".webp"
  else ".png".

(** [DetectFormat] *)
Definition DetectFormat `{GoLibrary} (path : string) : OutputFormat :=
  let ext := strings_ToLower (filepath_Ext path) in
  if String.eqb ext ".png" then FormatPNG
  else if String.eqb ext ".jpg" || String.eqb ext ".jpeg" then FormatJPEG
  else if String.eqb ext ".webp" then FormatWebP
  else FormatPNG.

(** *** types/image.go *)

(** [Image]: raw bytes, or their base64 text. *)
Record Image : Type := {
  img_data : list byte;
  img_base64 : string
}.

Definition NewImage (data : list byte) : Image :=
  {| img_data := data; img_base64 := "" |}.

Definition NewImageFromBase64 (encoded : string) : Image :=
  {| img_data := []; img_base64 := encoded |}.

(** [Image.Bytes] *)
Definition Bytes `{GoLibrary} (img : Image) : list byte * option string :=
  if Z.of_nat (length (img_data img)) >? 0 then (img_data img, None)
  else if negb (String.eqb (img_base64 img) "")
       then base64_DecodeString (img_base64 img)
  else ([], Some "image is empty").

(** [Image.Base64] *)
Definition Base64 `{GoLibrary} (img : Image) : string :=
  if negb (String.eqb (img_base64 img) "") then img_base64 img
  else base64_EncodeToString (img_data img).

(** [Image.Size].  [/] truncates; the product wraps like every [int]. *)
Definition Size (img : Image) : Z :=
  if Z.of_nat (length (img_data img)) >? 0 then Z.of_nat (length (img_data img))
  else Z.quot (int_wrap (Z.of_nat (String.length (img_base64 img)) * 3)) 4.

End Types.

(** ** Runs of the retrier *)

(** The payload a retrier run carries, and the orchestrator for it. *)
Inductive Payload : Type :=
| Structured
| Raw.

Definition payload (p : Payload) : Type :=
  match p with
  | Structured => Response
  | Raw => RawResponse
  end.

Definition orchestrator (p : Payload)
    : Retrier -> World (payload p) -> nat ->
      option ((option (payload p) * option error) * list Event) :=
  match p with
  | Structured => Do
  | Raw => DoRaw
  end.

Section Runs.
Context {A : Type}.
Variable w : World A.

(** Attempt [i] fails with an API error whose verdict is "retry". *)
Definition fails_retryably (i : nat) : Prop :=
  exists apiErr, snd (fn w i) = Some (ErrAPI apiErr) /\ Retryable apiErr = true.

(** The wait before attempt [i] ends with its timer; attempt 0 has no
    wait. *)
Definition wait_elapses (i : nat) : Prop :=
  (0 < i)%nat -> wait_select w i = None.

(** Iteration [i] runs to its end and asks for another attempt. *)
Definition retried (i : nat) : Prop :=
  wait_elapses i /\ fails_retryably i /\ ctx_Err w i = None.

(** The context is not done at any point where the run looks at it. *)
Definition uncancelled : Prop :=
  forall i, wait_select w i = None /\ ctx_Err w i = None.

(** The events of the wait that opens iteration [i], of an iteration that
    was retried, and of the first [k] such iterations. *)
Definition wait_events (i : nat) : list Event :=
  if 0 <? Z.of_nat i then [EvWait (Z.of_nat i)] else [].

Definition iteration_trace (i : nat) : list Event :=
  wait_events i ++ [EvCall; EvCtxErr].

Fixpoint trace_upto (k : nat) : list Event :=
  match k with
  | O => []
  | S k => trace_upto k ++ iteration_trace k
  end.

(** [lastErr] after [k] retried iterations. *)
Definition lastErr_upto (k : nat) : option error :=
  match k with
  | O => None
  | S k => snd (fn w k)
  end.

End Runs.

(** ** Scenarios

    Concrete retriers, errors and worlds on which the model is run: the
    retrier of the repository's retry test ([WithRetry(3, 10ms, 100ms)]), a
    server that answers 503 twice and then succeeds, one that always answers
    503, and contexts that are done at a chosen point. *)

Definition testRetrier : Retrier := NewRetrier 3 10000000 100000000.

Definition apiError (status : Z) : APIError :=
  {| Code := ""; Message := ""; Params := None; StatusCode := status;
     RequestID := "" |}.

Definition okResponse : Response :=
  {| Resp_Body := []; Resp_Status := 200; Resp_RequestID := "" |}.

Definition okRaw : RawResponse :=
  {| Data := []; ContentType := "image/png"; Version := "";
     ContentViolation := false; Raw_RequestID := ""; CreditsUsed := 0;
     CreditsRemaining := 0 |}.

(** [context.Background()]: never done. *)
Definition background {A : Type} (fn : nat -> option A * option error) : World A :=
  {| fn := fn; wait_select := fun _ => None; ctx_Err := fun _ => None |}.

Definition failing {A : Type} (status : Z) : option A * option error :=
  (None, Some (ErrAPI (apiError status))).

Definition flaky (i : nat) : option Response * option error :=
  if (i <? 2)%nat then failing 503 else (Some okResponse, None).

Definition flakyRaw (i : nat) : option RawResponse * option error :=
  if (i <? 2)%nat then failing 503 else (Some okRaw, None).

Definition unreachable (i : nat) : option Response * option error :=
  if (i <? 1)%nat then failing 502
  else (None, Some (ErrRequest "http" (ErrOther "connection refused"))).

(** A context cancelled during the wait before the third attempt. *)
Definition cancelledInWait : World Response :=
  {| fn := fun _ => failing 503;
     wait_select := fun i => if (i =? 2)%nat then Some Canceled else None;
     ctx_Err := fun _ => None |}.

(** A retrier that makes one attempt, and a context that is cancelled while
    that attempt is running. *)
Definition noRetry : Retrier := NewRetrier 0 10000000 100000000.

Definition cancelledInCall : World Response :=
  {| fn := fun _ => failing 503;
     wait_select := fun _ => None;
     ctx_Err := fun _ => Some Canceled |}.

(** A context cancelled during the first wait, before the server's third,
    successful answer can be asked for. *)
Definition cancelledBeforeSuccess : World Response :=
  {| fn := flaky;
     wait_select := fun i => if (i =? 1)%nat then Some Canceled else None;
     ctx_Err := fun _ => None |}.

(** A context whose deadline passes while the second attempt is running. *)
Definition expiredInCall : World RawResponse :=
  {| fn := fun _ => failing 429;
     wait_select := fun _ => None;
     ctx_Err := fun i => if (i =? 1)%nat then Some DeadlineExceeded else None |}.

(** A transport replaying a request: [GetBody] is invoked [n] times and each
    reader it returns is read to its end. *)
Fixpoint replay (getBody : Heap -> (nat * option string) * Heap) (n : nat)
    (h : Heap) : list (list byte) :=
  match n with
  | O => []
  | S n =>
      let '((l, _), h) := getBody h in
      let '(sent, h) := Reader_ReadAll l h in
      sent :: replay getBody n h
  end.

(** A runtime to run the model on: request bodies are byte strings that
    serialize to themselves, the decoder accepts the empty object only, the
    scanner accepts unsigned decimal numerals only, and every method and URL
    makes a request, whose URL reads as it was written. *)
Definition digit (a : ascii) : option Z :=
  let n := Z.of_nat (nat_of_ascii a) in
  if (48 <=? n) && (n <=? 57) then Some (n - 48) else None.

Fixpoint digits (s : string) (acc : Z) : option Z :=
  match s with
  | EmptyString => Some acc
  | String a s =>
      match digit a with
      | Some d => digits s (10 * acc + d)
      | None => None
      end
  end.

Definition testRuntime : GoRuntime :=
  {| GoValue := list byte;
     json_Marshal := fun v => inl v;
     json_Unmarshal := fun body =>
       if String.eqb (string_of_bytes body) "{}" then (("", "", None), None)
       else (("", "", None), Some "invalid character");
     http_StatusText := fun status =>
       if status =? 429 then "Too Many Requests"
       else if status =? 503 then "Service Unavailable"
       else "";
     fmt_Sscanf_d := fun val =>
       match val with
       | EmptyString => None
       | _ => digits val 0
       end;
     http_NewRequest_error := fun _ _ => None;
     http_NewRequest_URL := fun url => url |}.

(** A client whose HTTP exchange always yields [resp], and a request for a
    raw image. *)
Definition serving (resp : http_Response) : Client :=
  {| httpClient := fun _ _ => inl resp;
     baseURL := "https://api.reve.com";
     apiKey := "test-key";
     userAgent := "reve-go";
     debug := false;
     retrier := testRetrier |}.

Definition createRequest : @Request testRuntime :=
  {| Method := "POST";
     Path := "/v1/image/create";
     Body := Some (list_byte_of_string "{}" : @GoValue testRuntime);
     Accept := "image/png";
     Breadcrumb := "" |}.

(** A 200 response that carries the error-code header, and an image
    response whose credit headers are missing or not a number. *)
Definition flagged200 : http_Response :=
  {| resp_StatusCode := 200;
     resp_Header := {[ "X-Reve-Error-Code" := ["CONTENT_POLICY_VIOLATION"] ]};
     resp_Body := (list_byte_of_string "blocked", None) |}.

Definition image200 : http_Response :=
  {| resp_StatusCode := 200;
     resp_Header :=
       <[ "X-Reve-Content-Violation" := ["true"] ]>
         (<[ "X-Reve-Credits-Remaining" := ["n/a"] ]>
            {[ "Content-Type" := ["image/png"] ]});
     resp_Body := (list_byte_of_string "PNG", None) |}.

(** An image response that carries both credit counters. *)
Definition billed200 : http_Response :=
  {| resp_StatusCode := 200;
     resp_Header :=
       <[ "X-Reve-Credits-Used" := ["18"] ]>
         (<[ "X-Reve-Credits-Remaining" := ["982"] ]>
            {[ "Content-Type" := ["image/png"] ]});
     resp_Body := (list_byte_of_string "PNG", None) |}.

(** An image response whose body breaks off while it is read. *)
Definition truncated200 : http_Response :=
  {| resp_StatusCode := 200;
     resp_Header := {[ "Content-Type" := ["image/png"] ]};
     resp_Body := (list_byte_of_string "PN", Some "unexpected EOF") |}.

Definition failed503 : http_Response :=
  {| resp_StatusCode := 503;
     resp_Header := ∅;
     resp_Body := ([], None) |}.

(** ** Callers of the retrier and of the executor *)

(** The attempt numbers the waits of a trace were entered with, in order. *)
Definition wait_attempts (tr : list Event) : list Z :=
  omap (fun e => match e with EvWait a => Some a | _ => None end) tr.

(** The URL [buildRequest] asks for. *)
Definition request_url (c : Client) `{GoRuntime} (req : Request) : string :=
  if negb (String.eqb (Breadcrumb req) "")
  then (baseURL c +:+ Path req) +:+ "?breadcrumb=" +:+ Breadcrumb req
  else baseURL c +:+ Path req.

(** What is outside a call of [Client.Do] or [Client.DoRaw].  The exchange
    and the reader store are effectful: [net i] is [c.httpClient.Do] and
    [store i] the store as the [i]-th call of the executor finds them;
    [done_in_wait] and [done_after] are the context, as in [World]. *)
Record Outside : Type := {
  net : nat -> http_Request -> Heap -> http_Response + string;
  store : nat -> Heap;
  done_in_wait : nat -> option CtxError;
  done_after : nat -> option CtxError
}.

(** The client at its [i]-th exchange: only the transport's answer differs
    from call to call. *)
Definition at_call (c : Client) (out : Outside) (i : nat) : Client :=
  {| httpClient := net out i;
     baseURL := baseURL c;
     apiKey := apiKey c;
     userAgent := userAgent c;
     debug := debug c;
     retrier := retrier c |}.

(** The closures [Client.Do] and [Client.DoRaw] hand to the retrier, with
    the context they pass along. *)
Definition execute_world `{GoRuntime} (c : Client) (out : Outside) (req : Request)
    : World Response :=
  {| fn := fun i => execute (at_call c out i) req (store out i);
     wait_select := done_in_wait out;
     ctx_Err := done_after out |}.

Definition executeRaw_world `{GoRuntime} (c : Client) (out : Outside) (req : Request)
    : World RawResponse :=
  {| fn := fun i => executeRaw (at_call c out i) req (store out i);
     wait_select := done_in_wait out;
     ctx_Err := done_after out |}.

(** [Client.Do] and [Client.DoRaw] *)
Definition Client_Do `{GoRuntime} (c : Client) (out : Outside) (req : Request)
    (fuel : nat) :=
  Do (retrier c) (execute_world c out req) fuel.

Definition Client_DoRaw `{GoRuntime} (c : Client) (out : Outside) (req : Request)
    (fuel : nat) :=
  DoRaw (retrier c) (executeRaw_world c out req) fuel.

(** The [i]-th exchange is answered with a retryable status: in JSON mode
    with a body that is read, in raw mode with the error-code header. *)
Definition answers_retryably `{GoRuntime} (c : Client) (out : Outside)
    (req : Request) (raw : bool) (i : nat) : Prop :=
  exists httpReq h' resp,
    buildRequest (at_call c out i) req (store out i) = (inl httpReq, h')
    /\ net out i httpReq h' = inl resp
    /\ isRetryableStatus (resp_StatusCode resp) = true
    /\ (if raw then Header_Get (resp_Header resp) "X-Reve-Error-Code" <> ""
        else snd (io_ReadAll resp) = None).

(** ** More scenarios *)

(** A library to run package [types] on: [filepath.Ext] for [/]-separated
    paths, [strings.ToLower] on ASCII letters, and the standard base64
    alphabet with padding. *)
Fixpoint ext_after (path : string) (ext : string) : string :=
  match path with
  | EmptyString => ext
  | String a rest =>
      if Ascii.eqb a "/" then ext_after rest ""
      else if Ascii.eqb a "." then ext_after rest path
      else ext_after rest ext
  end.

Definition lower_ascii (a : ascii) : ascii :=
  let n := nat_of_ascii a in
  if (65 <=? n)%nat && (n <=? 90)%nat then ascii_of_nat (n + 32) else a.

Fixpoint lower (s : string) : string :=
  match s with
  | EmptyString => EmptyString
  | String a rest => String (lower_ascii a) (lower rest)
  end.

Definition b64_alphabet : string :=
  "ABCDEFGHIJKLMNOPQRSTUVWXYZabcdefghijklmnopqrstuvwxyz0123456789+/".

Definition b64_char (n : Z) : ascii :=
  match String.get (Z.to_nat n) b64_alphabet with
  | Some a => a
  | None => "="%char
  end.

Fixpoint b64_index (a : ascii) (alphabet : string) (i : Z) : option Z :=
  match alphabet with
  | EmptyString => None
  | String b rest => if Ascii.eqb a b then Some i else b64_index a rest (i + 1)
  end.

Definition byte_Z (b : byte) : Z := Z.of_nat (Byte.to_nat b).

Definition Z_byte (n : Z) : byte :=
  match Byte.of_nat (Z.to_nat n) with
  | Some b => b
  | None => x00
  end.

Fixpoint b64_encode (l : list byte) : string :=
  match l with
  | [] => ""
  | [b0] =>
      let n := byte_Z b0 in
      String (b64_char (n / 4)) (String (b64_char (n mod 4 * 16)) "==")
  | [b0; b1] =>
      let n := byte_Z b0 * 256 + byte_Z b1 in
      String (b64_char (n / 1024))
        (String (b64_char (n / 16 mod 64)) (String (b64_char (n mod 16 * 4)) "="))
  | b0 :: b1 :: b2 :: rest =>
      let n := byte_Z b0 * 65536 + byte_Z b1 * 256 + byte_Z b2 in
      String (b64_char (n / 262144))
        (String (b64_char (n / 4096 mod 64))
           (String (b64_char (n / 64 mod 64))
              (String (b64_char (n mod 64)) (b64_encode rest))))
  end.

Fixpoint b64_decode (s : string) : list byte * option string :=
  match s with
  | EmptyString => ([], None)
  | String c0 (String c1 (String c2 (String c3 rest))) =>
      match b64_index c0 b64_alphabet 0, b64_index c1 b64_alphabet 0 with
      | Some i0, Some i1 =>
          match b64_index c2 b64_alphabet 0, b64_index c3 b64_alphabet 0 with
          | Some i2, Some i3 =>
              let n := i0 * 262144 + i1 * 4096 + i2 * 64 + i3 in
              let '(out, err) := b64_decode rest in
              (Z_byte (n / 65536) :: Z_byte (n / 256 mod 256) :: Z_byte (n mod 256)
                 :: out, err)
          | Some i2, None =>
              if Ascii.eqb c3 "=" && String.eqb rest ""
              then ([Z_byte (i0 * 4 + i1 / 16); Z_byte (i1 mod 16 * 16 + i2 / 4)], None)
              else ([], Some "illegal base64 data")
          | None, _ =>
              if Ascii.eqb c2 "=" && Ascii.eqb c3 "=" && String.eqb rest ""
              then ([Z_byte (i0 * 4 + i1 / 16)], None)
              else ([], Some "illegal base64 data")
          end
      | _, _ => ([], Some "illegal base64 data")
      end
  | _ => ([], Some "illegal base64 data")
  end.

Definition testLibrary : GoLibrary :=
  {| filepath_Ext := fun path => ext_after path "";
     strings_ToLower := lower;
     base64_EncodeToString := b64_encode;
     base64_DecodeString := b64_decode |}.

(** The outside of the repository's retry test: the server answers 503
    twice and 200 from then on, the context is never done. *)
Definition answer (status : Z) : http_Response :=
  {| resp_StatusCode := status;
     resp_Header := {[ "X-Reve-Request-Id" := ["req-1"] ]};
     resp_Body := (list_byte_of_string "{}", None) |}.

Definition flakyServer : Outside :=
  {| net := fun i _ _ => inl (answer (if (i <? 2)%nat then 503 else 200));
     store := fun _ => [];
     done_in_wait := fun _ => None;
     done_after := fun _ => None |}.

(** A server that answers 503 once, after which the connection is refused. *)
Definition droppedServer : Outside :=
  {| net := fun i _ _ =>
       if (i <? 1)%nat then inl (answer 503) else inr "connection refused";
     store := fun _ => [];
     done_in_wait := fun _ => None;
     done_after := fun _ => None |}.

(** A gateway that answers 503 with a page of its own, without any header
    of the service. *)
Definition gateway : Outside :=
  {| net := fun _ _ _ => inl failed503;
     store := fun _ => [];
     done_in_wait := fun _ => None;
     done_after := fun _ => None |}.

(** A 503 of the service itself, with its error-code header. *)
Definition flagged503 : http_Response :=
  {| resp_StatusCode := 503;
     resp_Header := {[ "X-Reve-Error-Code" := ["INTERNAL_ERROR"] ]};
     resp_Body := ([], None) |}.

(** A request without a body. *)
Definition pingRequest : @Request testRuntime :=
  {| Method := "GET";
     Path := "/v1/ping";
     Body := None;
     Accept := "";
     Breadcrumb := "trace-7" |}.


(** * Properties *)

(** ** The error classifier *)

(** C2: the retry verdict of an API error depends on its HTTP status alone
    -- two errors with the same status get the same verdict whatever their
    code, message, parameters and request id -- and it is [true] exactly
    for the statuses 429, 500, 502, 503 and 504. *)
Theorem Retryable_status_only :
  forall (status : Z) code message params rid code' message' params' rid',
    Retryable (mkAPIError code message params status rid)
    = Retryable (mkAPIError code' message' params' status rid')
    /\ (Retryable (mkAPIError code message params status rid) = true
        <-> In status [429; 500; 502; 503; 504]).
Proof.
  intros status *. split; [reflexivity|].
  unfold Retryable, isRetryableStatus; cbn [StatusCode In].
  unfold StatusTooManyRequests, StatusInternalServerError, StatusBadGateway,
    StatusServiceUnavailable, StatusGatewayTimeout.
  repeat match goal with
         | |- context [?a =? ?b] => destruct (Z.eqb_spec a b)
         end; split; intros; try discriminate; try lia; auto.
Qed.

Lemma string_of_bytes_empty (b : list byte) :
  string_of_bytes b = "" <-> b = [].
Proof.
  unfold string_of_bytes. destruct b as [|x b]; cbn; split; congruence.
Qed.

(** C6: when [json.Unmarshal] fails on the body, the message of the API
    error is the body as text, or the status text of the HTTP status when
    the body is empty; and when decoding leaves the code empty, the code is
    inferred from the status: 401, 402, 429 and 500 give their codes, every
    other status leaves it empty. *)
Theorem ParseError_fallbacks `{GoRuntime} (resp : http_Response) (body : list byte) :
  let apiErr := ParseError resp body in
  let status := resp_StatusCode resp in
  (snd (json_Unmarshal body) <> None ->
     (body <> [] -> Message apiErr = string_of_bytes body)
     /\ (body = [] -> Message apiErr = http_StatusText status))
  /\ (fst (fst (fst (json_Unmarshal body))) = "" ->
        (status = 401 -> Code apiErr = "INVALID_API_KEY")
        /\ (status = 402 -> Code apiErr = "INSUFFICIENT_CREDITS")
        /\ (status = 429 -> Code apiErr = "RATE_LIMIT_EXCEEDED")
        /\ (status = 500 -> Code apiErr = "INTERNAL_ERROR")
        /\ (~ In status [401; 402; 429; 500] -> Code apiErr = ""))
  /\ StatusCode apiErr = status.
Proof.
  cbv zeta. unfold ParseError.
  destruct (json_Unmarshal body) as [[[code message] params] err]; cbn [fst snd].
  cbn [Message Code StatusCode].
  split; [|split; [|reflexivity]].
  - intros Herr. destruct err as [e|]; [|congruence].
    destruct (String.eqb_spec (string_of_bytes body) "") as [He|He].
    + apply string_of_bytes_empty in He. split; congruence.
    + split; [reflexivity|].
      intros ->. exfalso. apply He. reflexivity.
  - intros ->. cbn [String.eqb].
    unfold StatusUnauthorized, StatusPaymentRequired, StatusTooManyRequests,
      StatusInternalServerError.
    repeat split; intros Hs.
    1-4: rewrite Hs; reflexivity.
    cbn [In] in Hs.
    repeat match goal with
           | |- context [?a =? ?b] => destruct (Z.eqb_spec a b)
           end; try reflexivity; exfalso; apply Hs; lia.
Qed.

Lemma ParseError_fallbacks_witness :
  Message (@ParseError testRuntime failed503 []) = "Service Unavailable"
  /\ Message (@ParseError testRuntime flagged200 (list_byte_of_string "blocked"))
     = "blocked"
  /\ Code (@ParseError testRuntime
             {| resp_StatusCode := 429; resp_Header := ∅; resp_Body := ([], None) |}
             (list_byte_of_string "slow down"))
     = "RATE_LIMIT_EXCEEDED"
  /\ Code (@ParseError testRuntime failed503 []) = "".
Proof.
  split; [|split; [|split]].
  - apply (@ParseError_fallbacks testRuntime failed503 []);
      [discriminate | reflexivity].
  - apply (@ParseError_fallbacks testRuntime flagged200 (list_byte_of_string "blocked"));
      discriminate.
  - apply (@ParseError_fallbacks testRuntime
             {| resp_StatusCode := 429; resp_Header := ∅; resp_Body := ([], None) |}
             (list_byte_of_string "slow down")); reflexivity.
  - apply (@ParseError_fallbacks testRuntime failed503 []); [reflexivity|].
    cbn. intros H. repeat destruct H as [H|H]; try discriminate H. exact H.
Defined.

(** ** The pre-flight validator *)

(** Swapping the operands of an IEEE-754 comparison reverses its outcome. *)
Lemma SFcompare_swap (x y : spec_float) :
  SFcompare y x = CompOpp <$> SFcompare x y.
Proof.
  destruct x as [sx|sx| |sx mx ex], y as [sy|sy| |sy my ey]; cbn;
    try reflexivity; try (destruct sx; reflexivity);
    try (destruct sy; reflexivity);
    try (destruct sx, sy; reflexivity).
  destruct sx, sy; try reflexivity;
    rewrite (Z.compare_antisym ey ex);
    destruct (ey ?= ex)%Z eqn:Hc; cbn; try reflexivity;
    rewrite (Pos.compare_cont_antisym mx my Eq); cbn;
    rewrite ?CompOpp_involutive; reflexivity.
Qed.

Lemma SFltb_negb_SFleb (x y : spec_float) :
  x <> S754_nan -> y <> S754_nan -> SFltb x y = negb (SFleb y x).
Proof.
  intros Hx Hy. unfold SFltb, SFleb. rewrite (SFcompare_swap x y).
  destruct (SFcompare x y) as [[]|] eqn:Hc; cbn; try reflexivity.
  exfalso. destruct x, y; cbn in Hc; congruence.
Qed.

Example ValidateScaling_examples :
  ValidateScaling (float64_of_Z 1) = None
  /\ ValidateScaling (float64_of_Z 7) = None
  /\ ValidateScaling (S754_zero true) = None
  /\ ValidateScaling (S754_finite false 4503599627370496 (-53))
     = Some ErrInvalidScaling
  /\ ValidateScaling (float64_of_Z 16) = Some ErrInvalidScaling
  /\ ValidateScaling (S754_finite true 4503599627370496 (-52))
     = Some ErrInvalidScaling
  /\ ValidateScaling (S754_infinity false) = Some ErrInvalidScaling.
Proof. repeat split; reflexivity. Qed.

(** C9 fails as stated: the scaling factor 0 is accepted although it is not
    in [1,15]. *)
Lemma ValidateScaling_zero_accepted :
  ~ (ValidateScaling (S754_zero false) = None
     <-> SFleb MinScaling (S754_zero false) = true
         /\ SFleb (S754_zero false) MaxScaling = true).
Proof. cbn. intros [H _]. destruct (H eq_refl) as [H1 _]. discriminate H1. Qed.

(** C9, amended: for every scaling factor that is a number,
    [ValidateScaling] returns nil exactly when the factor equals 0 (the
    value of an unset field) or lies in [1,15], and returns the
    invalid-scaling error otherwise. *)
Theorem ValidateScaling_accepts (s : float64) :
  s <> S754_nan ->
  (ValidateScaling s = None
   <-> SFeqb s (S754_zero false) = true
       \/ (SFleb MinScaling s = true /\ SFleb s MaxScaling = true))
  /\ (ValidateScaling s <> None -> ValidateScaling s = Some ErrInvalidScaling).
Proof.
  intros Hs.
  assert (H1 : SFltb s MinScaling = negb (SFleb MinScaling s))
    by (apply SFltb_negb_SFleb; [assumption | discriminate]).
  assert (H15 : SFltb MaxScaling s = negb (SFleb s MaxScaling))
    by (apply SFltb_negb_SFleb; [discriminate | assumption]).
  unfold ValidateScaling. rewrite H1, H15. clear H1 H15.
  destruct (SFeqb s (S754_zero false)); [split; [tauto | congruence]|].
  destruct (SFleb MinScaling s), (SFleb s MaxScaling); cbn;
    (split; [split; [try discriminate; auto | intros [?|[? ?]]; congruence]
            | congruence]).
Qed.

Lemma ValidateScaling_accepts_witness :
  ValidateScaling (float64_of_Z 15) = None
  /\ ValidateScaling (float64_of_Z 20) = Some ErrInvalidScaling.
Proof.
  split.
  - apply (ValidateScaling_accepts (float64_of_Z 15)); [discriminate|].
    right. split; reflexivity.
  - apply (ValidateScaling_accepts (float64_of_Z 20)); discriminate.
Defined.

(** ** The retry orchestrator *)

Lemma int_wrap_id (z : Z) : is_int z -> int_wrap z = z.
Proof.
  unfold is_int, int_wrap, MinInt, MaxInt. intros Hz.
  rewrite Z.mod_small; lia.
Qed.

Lemma calls_app (tr1 tr2 : list Event) :
  calls (tr1 ++ tr2) = (calls tr1 + calls tr2)%nat.
Proof. unfold calls. rewrite List.filter_app, length_app. reflexivity. Qed.

Lemma shouldRetry_true (r : Retrier) (err : error) :
  shouldRetry r err = true <->
  exists apiErr, err = ErrAPI apiErr /\ Retryable apiErr = true.
Proof.
  destruct err; cbn; split; try discriminate; eauto;
    intros (a & Ha & Hr); congruence.
Qed.

Section RunLemmas.
Context {A : Type}.
Variable r : Retrier.
Variable w : World A.

Lemma calls_wait_events (i : nat) : calls (wait_events i) = 0%nat.
Proof. unfold wait_events. destruct (0 <? Z.of_nat i); reflexivity. Qed.

Lemma calls_iteration_trace (i : nat) : calls (iteration_trace i) = 1%nat.
Proof.
  unfold iteration_trace. rewrite calls_app, calls_wait_events. reflexivity.
Qed.

Lemma calls_trace_upto (k : nat) : calls (trace_upto k) = k.
Proof.
  induction k as [|k IH]; [reflexivity|].
  cbn [trace_upto]. rewrite calls_app, IH, calls_iteration_trace. lia.
Qed.

(** The loop body at [attempt = i] once its wait has ended with the timer:
    what is left is the call and the tests on its error. *)
Lemma iteration_after_wait (i : nat) :
  wait_elapses w i ->
  iteration r w (Z.of_nat i) (trace_upto i)
  = let tr := (trace_upto i ++ wait_events i) ++ [EvCall] in
    match fn w i with
    | (resp, None) => Return (resp, None) tr
    | (_, Some err) =>
        if negb (shouldRetry r err) then Return (None, Some err) tr
        else
          match ctx_Err w i with
          | Some c => Return (None, Some (ErrContext c)) (tr ++ [EvCtxErr])
          | None => Continue (Some err) (tr ++ [EvCtxErr])
          end
    end.
Proof.
  intros Hw. unfold iteration, wait_events. rewrite calls_trace_upto.
  destruct (0 <? Z.of_nat i) eqn:Hi.
  - unfold wait. rewrite Hw by lia.
    destruct (fn w i) as [resp [err|]]; reflexivity.
  - rewrite app_nil_r. destruct (fn w i) as [resp [err|]]; reflexivity.
Qed.

(** An iteration that is retried continues the loop. *)
Lemma iteration_retried (i : nat) :
  retried w i ->
  iteration r w (Z.of_nat i) (trace_upto i)
  = Continue (snd (fn w i)) (trace_upto (S i)).
Proof.
  intros (Hw & (apiErr & Hf & Hr) & Hc).
  rewrite iteration_after_wait by assumption. cbv zeta.
  destruct (fn w i) as [resp err]. cbn [snd] in *. subst err.
  cbn [shouldRetry]. rewrite Hr, Hc. cbn [negb trace_upto].
  unfold iteration_trace. rewrite <- !app_assoc. reflexivity.
Qed.

(** After [k] retried iterations the loop stands at [attempt = k]. *)
Lemma retry_loop_retried (k fuel : nat) :
  (forall i, (i < k)%nat -> retried w i) ->
  Z.of_nat k <= maxRetries r + 1 ->
  Z.of_nat k <= MaxInt ->
  retry r w (k + fuel)
  = retry_loop r w fuel (Z.of_nat k) (lastErr_upto w k) (trace_upto k).
Proof.
  revert fuel. induction k as [|k IH]; intros fuel Hret Hmax Hint.
  - reflexivity.
  - replace (S k + fuel)%nat with (k + S fuel)%nat by lia.
    rewrite IH by (try (intros; apply Hret); lia).
    cbn [retry_loop].
    replace (Z.of_nat k <=? maxRetries r) with true
      by (symmetry; apply Z.leb_le; lia).
    rewrite iteration_retried by (apply Hret; lia).
    rewrite int_wrap_id by (unfold is_int, MinInt, MaxInt in *; lia).
    replace (Z.of_nat k + 1) with (Z.of_nat (S k)) by lia.
    reflexivity.
Qed.

(** When the iteration reached after [k] retried ones returns, so does
    the run, whatever fuel is left. *)
Lemma retry_returns (k fuel : nat) res tr :
  (forall i, (i < k)%nat -> retried w i) ->
  Z.of_nat k <= maxRetries r ->
  maxRetries r <= MaxInt ->
  iteration r w (Z.of_nat k) (trace_upto k) = Return res tr ->
  (k < fuel)%nat ->
  retry r w fuel = Some (res, tr).
Proof.
  intros Hret Hmax Hint Hit Hfuel.
  replace fuel with (k + S (fuel - S k))%nat by lia.
  rewrite retry_loop_retried by (try assumption; lia).
  cbn [retry_loop].
  replace (Z.of_nat k <=? maxRetries r) with true
    by (symmetry; apply Z.leb_le; lia).
  rewrite Hit. reflexivity.
Qed.

(** When every iteration the bound allows is retried, the run ends with
    the last error. *)
Lemma retry_exhausted (fuel : nat) :
  0 <= maxRetries r < MaxInt ->
  (forall i, Z.of_nat i <= maxRetries r -> retried w i) ->
  (Z.to_nat (maxRetries r) < fuel)%nat ->
  retry r w fuel
  = Some ((None, snd (fn w (Z.to_nat (maxRetries r)))),
          trace_upto (S (Z.to_nat (maxRetries r)))).
Proof.
  intros Hmax Hret Hfuel.
  set (n := Z.to_nat (maxRetries r)) in *.
  replace fuel with (S n + (fuel - S n))%nat by lia.
  rewrite retry_loop_retried by (try (intros; apply Hret); lia).
  destruct (fuel - S n)%nat; cbn [retry_loop lastErr_upto];
    replace (Z.of_nat (S n) <=? maxRetries r) with false
      by (symmetry; apply Z.leb_gt; lia);
    reflexivity.
Qed.

Lemma calls_through_call (k : nat) :
  calls ((trace_upto k ++ wait_events k) ++ [EvCall]) = S k.
Proof.
  rewrite !calls_app, calls_trace_upto, calls_wait_events. cbn. lia.
Qed.

(** A successful attempt ends the run with its response. *)
Lemma retry_success (k fuel : nat) (resp : option A) :
  (forall i, (i < k)%nat -> retried w i) ->
  Z.of_nat k <= maxRetries r <= MaxInt ->
  wait_elapses w k ->
  fn w k = (resp, None) ->
  (k < fuel)%nat ->
  exists tr, retry r w fuel = Some ((resp, None), tr)
             /\ calls tr = S k /\ last tr = Some EvCall.
Proof.
  intros Hret Hmax Hw Hfn Hfuel. eexists. split; [|split].
  - eapply retry_returns; try eassumption; try lia.
    rewrite iteration_after_wait by assumption. rewrite Hfn. reflexivity.
  - apply calls_through_call.
  - apply last_snoc.
Qed.

(** An attempt whose error is not to be retried ends the run with it. *)
Lemma retry_not_retried (k fuel : nat) (err : error) :
  (forall i, (i < k)%nat -> retried w i) ->
  Z.of_nat k <= maxRetries r <= MaxInt ->
  wait_elapses w k ->
  snd (fn w k) = Some err ->
  shouldRetry r err = false ->
  (k < fuel)%nat ->
  exists tr, retry r w fuel = Some ((None, Some err), tr)
             /\ calls tr = S k /\ last tr = Some EvCall.
Proof.
  intros Hret Hmax Hw Hfn Hno Hfuel. eexists. split; [|split].
  - eapply retry_returns; try eassumption; try lia.
    rewrite iteration_after_wait by assumption.
    destruct (fn w k) as [resp e]. cbn [snd] in Hfn. subst e.
    cbv zeta. rewrite Hno. reflexivity.
  - apply calls_through_call.
  - apply last_snoc.
Qed.

(** A wait that the context ends first ends the run before the call. *)
Lemma retry_wait_cancelled (k fuel : nat) (c : CtxError) :
  (forall i, (i < k)%nat -> retried w i) ->
  0 < Z.of_nat k <= maxRetries r ->
  maxRetries r <= MaxInt ->
  wait_select w k = Some c ->
  (k < fuel)%nat ->
  exists tr, retry r w fuel = Some ((None, Some (ErrContext c)), tr)
             /\ calls tr = k /\ last tr = Some (EvWait (Z.of_nat k)).
Proof.
  intros Hret Hk Hmax Hsel Hfuel. eexists. split; [|split].
  - eapply retry_returns; try eassumption; try lia.
    unfold iteration. rewrite calls_trace_upto.
    replace (0 <? Z.of_nat k) with true by (symmetry; apply Z.ltb_lt; lia).
    unfold wait. rewrite Hsel. reflexivity.
  - rewrite calls_app, calls_trace_upto. cbn. lia.
  - apply last_snoc.
Qed.

(** A retryable failure after which the context is found done ends the run
    with the context's error. *)
Lemma retry_failure_cancelled (k fuel : nat) (c : CtxError) :
  (forall i, (i < k)%nat -> retried w i) ->
  Z.of_nat k <= maxRetries r <= MaxInt ->
  wait_elapses w k ->
  fails_retryably w k ->
  ctx_Err w k = Some c ->
  (k < fuel)%nat ->
  exists tr, retry r w fuel = Some ((None, Some (ErrContext c)), tr)
             /\ calls tr = S k /\ last tr = Some EvCtxErr.
Proof.
  intros Hret Hmax Hw (apiErr & Hfn & Hr) Hc Hfuel. eexists. split; [|split].
  - eapply retry_returns; try eassumption; try lia.
    rewrite iteration_after_wait by assumption.
    destruct (fn w k) as [resp e]. cbn [snd] in Hfn. subst e.
    cbv zeta. cbn [shouldRetry]. rewrite Hr, Hc. reflexivity.
  - rewrite calls_app, calls_through_call. cbn. lia.
  - apply last_snoc.
Qed.

End RunLemmas.

(** ** Every run returns *)

Section Totality.
Context {A : Type}.
Variable r : Retrier.
Variable w : World A.

(** One pass through the loop body makes at most one attempt, and exactly
    one when the loop goes on. *)
Lemma iteration_calls (attempt : Z) (tr : list Event) :
  match iteration r w attempt tr with
  | Return _ tr' => (calls tr <= calls tr' <= S (calls tr))%nat
  | Continue _ tr' => calls tr' = S (calls tr)
  end.
Proof.
  unfold iteration.
  destruct (0 <? attempt); unfold wait;
    [destruct (wait_select w (calls tr))|];
    rewrite ?calls_app; cbn [calls is_call List.filter length];
    try lia;
    destruct (fn w (calls tr)) as [resp [err|]];
    try (destruct (negb (shouldRetry r err)); [|destruct (ctx_Err w (calls tr))]);
    rewrite ?calls_app; cbn; lia.
Qed.

Lemma retry_loop_total (n : nat) :
  forall (k fuel : nat) (lastErr : option error) (tr : list Event),
    maxRetries r < MaxInt ->
    maxRetries r + 1 - Z.of_nat k <= Z.of_nat n ->
    (n <= fuel)%nat ->
    calls tr = k ->
    exists res tr',
      retry_loop r w fuel (Z.of_nat k) lastErr tr = Some (res, tr')
      /\ (Z.of_nat (calls tr') <= Z.max (Z.of_nat k) (maxRetries r + 1)).
Proof.
  induction n as [|n IH]; intros k fuel lastErr tr Hmax Hn Hfuel Hk.
  - destruct fuel; cbn [retry_loop];
      replace (Z.of_nat k <=? maxRetries r) with false
        by (symmetry; apply Z.leb_gt; lia);
      eexists _, _; (split; [reflexivity | lia]).
  - destruct fuel as [|fuel]; [lia|]. cbn [retry_loop].
    destruct (Z.leb_spec (Z.of_nat k) (maxRetries r)) as [Hle|Hgt].
    + pose proof (iteration_calls (Z.of_nat k) tr) as Hit.
      destruct (iteration r w (Z.of_nat k) tr) as [res tr'|lastErr' tr'].
      * eexists _, _. split; [reflexivity | lia].
      * rewrite int_wrap_id by (unfold is_int, MinInt, MaxInt in *; lia).
        replace (Z.of_nat k + 1) with (Z.of_nat (S k)) by lia.
        destruct (IH (S k) fuel lastErr' tr') as (res & tr'' & Hrun & Hcalls);
          try lia.
        eexists _, _. split; [exact Hrun | lia].
    + eexists _, _. split; [reflexivity | lia].
Qed.

(** Whatever the closure and the context do, a run returns once it has fuel
    for [maxRetries+1] iterations, and makes at most that many attempts. *)
Lemma retry_total (fuel : nat) :
  maxRetries r < MaxInt ->
  (Z.to_nat (maxRetries r + 1) <= fuel)%nat ->
  exists res tr,
    retry r w fuel = Some (res, tr)
    /\ (calls tr <= Z.to_nat (maxRetries r + 1))%nat.
Proof.
  intros Hmax Hfuel.
  destruct (retry_loop_total (Z.to_nat (maxRetries r + 1)) 0 fuel None [] Hmax)
    as (res & tr & Hrun & Hcalls); try reflexivity; try lia.
  exists res, tr. split; [exact Hrun | lia].
Qed.
End Totality.

(** ** The attempts a run makes *)

Section Reach.
Context {A : Type}.
Variable r : Retrier.
Variable w : World A.

Lemma wait_elapses_dec (k : nat) :
  wait_elapses w k \/ ((0 < k)%nat /\ exists c, wait_select w k = Some c).
Proof.
  unfold wait_elapses. destruct k as [|k]; [left; lia|].
  destruct (wait_select w (S k)) as [c|]; [right; split; [lia | eauto] | left; auto].
Qed.

(** The iterations before an attempt that is made were all retried, and
    the wait before it ended with its timer. *)
Lemma attempt_made_after_retries (j d : nat) :
  forall (k fuel : nat) res tr,
    j = (k + d)%nat ->
    maxRetries r < MaxInt ->
    (forall i, (i < k)%nat -> retried w i) ->
    retry_loop r w fuel (Z.of_nat k) (lastErr_upto w k) (trace_upto k)
    = Some (res, tr) ->
    (j < calls tr)%nat ->
    (forall i, (i < j)%nat -> retried w i)
    /\ wait_elapses w j /\ Z.of_nat j <= maxRetries r.
Proof.
  induction d as [|d IH]; intros k fuel res tr Hj Hmax Hret Hrun Hcalls.
  all: destruct fuel as [|fuel]; cbn [retry_loop] in Hrun.
  all: destruct (Z.leb_spec (Z.of_nat k) (maxRetries r)) as [Hle|Hgt];
    try discriminate Hrun.
  all: try (injection Hrun as <- <-; rewrite calls_trace_upto in Hcalls; lia).
  all: destruct (wait_elapses_dec k) as [Hw|(Hk & c & Hsel)].
  all: try (unfold iteration in Hrun; rewrite calls_trace_upto in Hrun;
            replace (0 <? Z.of_nat k) with true in Hrun
              by (symmetry; apply Z.ltb_lt; lia);
            unfold wait in Hrun; rewrite Hsel in Hrun;
            injection Hrun as <- <-;
            rewrite calls_app, calls_trace_upto in Hcalls; cbn in Hcalls; lia).
  - replace j with k in * by lia. auto.
  - rewrite iteration_after_wait in Hrun by assumption. cbv zeta in Hrun.
    destruct (fn w k) as [resp [err|]] eqn:Hfn.
    + destruct (shouldRetry r err) eqn:Hsr; cbn [negb] in Hrun.
      * destruct (ctx_Err w k) as [c|] eqn:Hc.
        -- injection Hrun as <- <-.
           rewrite calls_app, calls_through_call in Hcalls. cbn in Hcalls. lia.
        -- apply (IH (S k) fuel res tr); try assumption; try lia.
           ++ intros i Hi. destruct (Nat.eq_dec i k) as [->|Hne];
                [|apply Hret; lia].
              split; [assumption|]. split; [|assumption].
              apply shouldRetry_true in Hsr. destruct Hsr as (a & -> & Ha).
              exists a. rewrite Hfn. auto.
           ++ rewrite int_wrap_id in Hrun
                by (unfold is_int, MinInt, MaxInt in *; lia).
              replace (Z.of_nat k + 1) with (Z.of_nat (S k)) in Hrun by lia.
              cbn [lastErr_upto trace_upto]. rewrite Hfn. cbn [snd].
              unfold iteration_trace. rewrite <- !app_assoc in *. exact Hrun.
      * injection Hrun as <- <-. rewrite calls_through_call in Hcalls. lia.
    + injection Hrun as <- <-. rewrite calls_through_call in Hcalls. lia.
Qed.

Lemma attempt_made (j fuel : nat) res tr :
  maxRetries r < MaxInt ->
  retry r w fuel = Some (res, tr) ->
  (j < calls tr)%nat ->
  (forall i, (i < j)%nat -> retried w i)
  /\ wait_elapses w j /\ Z.of_nat j <= maxRetries r.
Proof.
  intros Hmax Hrun Hcalls.
  apply (attempt_made_after_retries j j 0 fuel res tr); try assumption; lia.
Qed.
End Reach.

(** C1 fails as stated.  With [maxRetries = 0] the one attempt there is
    fails with a retryable 503, and [Do] returns the error of the context,
    found done after that attempt, instead of the 503.  And with
    [maxRetries = 3] and outcomes 503, 503, success, a context cancelled
    during the first wait makes [Do] return its error after one attempt:
    the success of the third is never returned. *)
Lemma retry_yields_to_cancellation :
  ((forall i, Z.of_nat i <= maxRetries noRetry -> fails_retryably cancelledInCall i)
   /\ Do noRetry cancelledInCall 10
      = Some ((None, Some (ErrContext Canceled)), [EvCall; EvCtxErr])
   /\ ~ (exists tr,
           Do noRetry cancelledInCall 10
           = Some ((None, snd (fn cancelledInCall (Z.to_nat (maxRetries noRetry)))), tr)
           /\ calls tr = 1%nat))
  /\ ((forall i, (i < 2)%nat -> fails_retryably cancelledBeforeSuccess i)
      /\ fn cancelledBeforeSuccess 2 = (Some okResponse, None)
      /\ Do testRetrier cancelledBeforeSuccess 10
         = Some ((None, Some (ErrContext Canceled)), [EvCall; EvCtxErr; EvWait 1])
      /\ ~ (exists tr,
              Do testRetrier cancelledBeforeSuccess 10
              = Some ((Some okResponse, None), tr) /\ calls tr = 3%nat)).
Proof.
  split; [split; [|split] | split; [|split; [|split]]].
  - intros i _. exists (apiError 503). split; reflexivity.
  - reflexivity.
  - intros (tr & Hrun & _). discriminate Hrun.
  - intros [|[|i]] Hi; try lia; exists (apiError 503); split; reflexivity.
  - reflexivity.
  - reflexivity.
  - intros (tr & Hrun & _). discriminate Hrun.
Qed.

(** C1, amended: with a context that is not done at any point where the
    run consults it, and [0 <= maxRetries]: if the attempts before attempt
    number [j+1 <= maxRetries+1] all fail with retryable API errors and
    that attempt succeeds, [Do] and [DoRaw] return its response after
    exactly [j+1] attempts, the successful call being the last thing they
    do; and if all [maxRetries+1] attempts (a number that is an [int]) fail
    with retryable API errors, they return the error of the last attempt
    after exactly [maxRetries+1] attempts. *)
Theorem retry_until_success_or_exhaustion
    (p : Payload) (r : Retrier) (w : World (payload p)) :
  0 <= maxRetries r <= MaxInt ->
  uncancelled w ->
  (forall (j : nat) (resp : option (payload p)),
      Z.of_nat (S j) <= maxRetries r + 1 ->
      (forall i, (i < j)%nat -> fails_retryably w i) ->
      fn w j = (resp, None) ->
      forall fuel, (j < fuel)%nat ->
      exists tr, orchestrator p r w fuel = Some ((resp, None), tr)
                 /\ calls tr = S j /\ last tr = Some EvCall)
  /\ (maxRetries r < MaxInt ->
      (forall i, Z.of_nat i <= maxRetries r -> fails_retryably w i) ->
      forall fuel, (Z.to_nat (maxRetries r) < fuel)%nat ->
      exists tr,
        orchestrator p r w fuel
        = Some ((None, snd (fn w (Z.to_nat (maxRetries r)))), tr)
        /\ calls tr = S (Z.to_nat (maxRetries r))).
Proof.
  intros Hmax Hctx.
  assert (Hretried : forall i, fails_retryably w i -> retried w i).
  { intros i Hf. destruct (Hctx i) as [Hs He].
    split; [intros _; exact Hs | split; assumption]. }
  split.
  - intros j resp Hj Hfail Hfn fuel Hfuel.
    assert (H : exists tr, retry r w fuel = Some ((resp, None), tr)
                           /\ calls tr = S j /\ last tr = Some EvCall).
    { apply retry_success; try assumption; try lia.
      - intros i Hi. apply Hretried, Hfail, Hi.
      - intros _. apply Hctx. }
    destruct p; exact H.
  - intros Hlt Hfail fuel Hfuel.
    assert (H : retry r w fuel
                = Some ((None, snd (fn w (Z.to_nat (maxRetries r)))),
                        trace_upto (S (Z.to_nat (maxRetries r))))).
    { apply retry_exhausted; try assumption; try lia.
      intros i Hi. apply Hretried, Hfail, Hi. }
    exists (trace_upto (S (Z.to_nat (maxRetries r)))).
    split; [destruct p; exact H | apply calls_trace_upto].
Qed.

Lemma retry_until_success_or_exhaustion_witness :
  (exists tr,
      Do testRetrier (background flaky) 10 = Some ((Some okResponse, None), tr)
      /\ calls tr = 3%nat /\ last tr = Some EvCall)
  /\ (exists tr,
        DoRaw testRetrier (background (fun _ => failing 503)) 10
        = Some ((None, Some (ErrAPI (apiError 503))), tr)
        /\ calls tr = 4%nat).
Proof.
  split.
  - apply (proj1 (retry_until_success_or_exhaustion
                    Structured testRetrier (background flaky)
                    ltac:(cbn; unfold MaxInt; lia)
                    ltac:(intros i; split; reflexivity)) 2%nat (Some okResponse)).
    + cbn. lia.
    + intros [|[|i]] Hi; try lia; exists (apiError 503); split; reflexivity.
    + reflexivity.
    + lia.
  - apply (proj2 (retry_until_success_or_exhaustion
                    Raw testRetrier (background (fun _ => failing 503))
                    ltac:(cbn; unfold MaxInt; lia)
                    ltac:(intros i; split; reflexivity))).
    + cbn. unfold MaxInt. lia.
    + intros i _. exists (apiError 503). split; reflexivity.
    + cbn. lia.
Defined.

(** C3: when the attempts before attempt [j+1] were all retried and that
    attempt fails with an error that is not a retryable API error -- an API
    error whose status is not retryable, or an error of any other kind, a
    request-level error among them -- [Do] and [DoRaw] return that very
    error; the failed call is the last thing they do (no wait, no further
    attempt), and the attempts number exactly [j+1], so exactly 1 for
    [j = 0]. *)
Theorem nonretryable_error_returned_at_once
    (p : Payload) (r : Retrier) (w : World (payload p)) (j : nat) (err : error) :
  Z.of_nat j <= maxRetries r <= MaxInt ->
  (forall i, (i < j)%nat -> retried w i) ->
  wait_elapses w j ->
  snd (fn w j) = Some err ->
  (forall apiErr, err = ErrAPI apiErr -> isRetryableStatus (StatusCode apiErr) = false) ->
  forall fuel, (j < fuel)%nat ->
  exists tr, orchestrator p r w fuel = Some ((None, Some err), tr)
             /\ calls tr = S j /\ last tr = Some EvCall.
Proof.
  intros Hmax Hret Hw Hfn Herr fuel Hfuel.
  assert (Hno : shouldRetry r err = false).
  { destruct err as [apiErr| | |]; try reflexivity.
    cbn. apply Herr. reflexivity. }
  assert (H : exists tr, retry r w fuel = Some ((None, Some err), tr)
                         /\ calls tr = S j /\ last tr = Some EvCall)
    by (apply retry_not_retried; assumption).
  destruct p; exact H.
Qed.

Lemma nonretryable_error_returned_at_once_witness :
  (exists tr,
      Do testRetrier (background (fun _ => failing 400)) 10
      = Some ((None, Some (ErrAPI (apiError 400))), tr)
      /\ calls tr = 1%nat /\ last tr = Some EvCall)
  /\ (exists tr,
        Do testRetrier (background unreachable) 10
        = Some ((None, Some (ErrRequest "http" (ErrOther "connection refused"))), tr)
        /\ calls tr = 2%nat /\ last tr = Some EvCall).
Proof.
  split.
  - apply (nonretryable_error_returned_at_once
             Structured testRetrier (background (fun _ => failing 400)) 0).
    + cbn. unfold MaxInt. lia.
    + intros i Hi. lia.
    + intros Hi. lia.
    + reflexivity.
    + intros apiErr [= <-]. reflexivity.
    + lia.
  - apply (nonretryable_error_returned_at_once
             Structured testRetrier (background unreachable) 1).
    + cbn. unfold MaxInt. lia.
    + intros [|i] Hi; [|lia].
      split; [intros H0; lia|].
      split; [exists (apiError 502); split|]; reflexivity.
    + intros _. reflexivity.
    + reflexivity.
    + intros apiErr [=].
    + lia.
Defined.

(** C7: when the attempts before attempt [j+1] (with [j >= 1]) were all
    retried and the context is done during the wait that precedes it,
    [Do] and [DoRaw] return the context's error without making that
    attempt: the wait is the last thing they do and the attempts stay at
    [j]. *)
Theorem cancelled_wait_aborts_before_attempt
    (p : Payload) (r : Retrier) (w : World (payload p)) (j : nat) (c : CtxError) :
  0 < Z.of_nat j <= maxRetries r ->
  maxRetries r <= MaxInt ->
  (forall i, (i < j)%nat -> retried w i) ->
  wait_select w j = Some c ->
  forall fuel, (j < fuel)%nat ->
  exists tr, orchestrator p r w fuel = Some ((None, Some (ErrContext c)), tr)
             /\ calls tr = j /\ last tr = Some (EvWait (Z.of_nat j)).
Proof.
  intros Hj Hmax Hret Hsel fuel Hfuel.
  assert (H : exists tr, retry r w fuel = Some ((None, Some (ErrContext c)), tr)
                         /\ calls tr = j /\ last tr = Some (EvWait (Z.of_nat j)))
    by (apply retry_wait_cancelled; assumption).
  destruct p; exact H.
Qed.

Lemma cancelled_wait_aborts_before_attempt_witness :
  exists tr,
    Do testRetrier cancelledInWait 10 = Some ((None, Some (ErrContext Canceled)), tr)
    /\ calls tr = 2%nat /\ last tr = Some (EvWait 2).
Proof.
  apply (cancelled_wait_aborts_before_attempt
           Structured testRetrier cancelledInWait 2 Canceled).
  - cbn. lia.
  - cbn. unfold MaxInt. lia.
  - intros [|[|i]] Hi; try lia;
      (split; [intros _; reflexivity|];
       split; [exists (apiError 503); split|]; reflexivity).
  - reflexivity.
  - lia.
Defined.

(** C10: when the attempts before attempt [j+1] were all retried, that
    attempt fails with a retryable API error and the context is found done
    right after it, [Do] and [DoRaw] return the context's error and not the
    API error; reading the context is the last thing they do, so no wait
    and no attempt follows. *)
Theorem cancellation_after_failure_wins
    (p : Payload) (r : Retrier) (w : World (payload p)) (j : nat) (c : CtxError) :
  Z.of_nat j <= maxRetries r <= MaxInt ->
  (forall i, (i < j)%nat -> retried w i) ->
  wait_elapses w j ->
  fails_retryably w j ->
  ctx_Err w j = Some c ->
  forall fuel, (j < fuel)%nat ->
  exists tr, orchestrator p r w fuel = Some ((None, Some (ErrContext c)), tr)
             /\ calls tr = S j /\ last tr = Some EvCtxErr.
Proof.
  intros Hmax Hret Hw Hfail Hc fuel Hfuel.
  assert (H : exists tr, retry r w fuel = Some ((None, Some (ErrContext c)), tr)
                         /\ calls tr = S j /\ last tr = Some EvCtxErr)
    by (apply retry_failure_cancelled; assumption).
  destruct p; exact H.
Qed.

Lemma cancellation_after_failure_wins_witness :
  exists tr,
    DoRaw testRetrier expiredInCall 10
    = Some ((None, Some (ErrContext DeadlineExceeded)), tr)
    /\ calls tr = 2%nat /\ last tr = Some EvCtxErr.
Proof.
  apply (cancellation_after_failure_wins
           Raw testRetrier expiredInCall 1 DeadlineExceeded).
  - cbn. unfold MaxInt. lia.
  - intros [|i] Hi; [|lia].
    split; [intros H0; lia|].
    split; [exists (apiError 429); split|]; reflexivity.
  - intros _. reflexivity.
  - exists (apiError 429). split; reflexivity.
  - reflexivity.
  - lia.
Defined.

(** ** The transport executor *)

Lemma Header_Get_absent (h : Header) (key : string) :
  h !! key = None -> Header_Get h key = "".
Proof. unfold Header_Get. intros ->. reflexivity. Qed.

(** C5 fails as stated: a response without the error-code header whose
    body breaks off while it is read makes [executeRaw] fail, with a
    request-level error. *)
Lemma executeRaw_body_read_failure :
  Header_Get (resp_Header truncated200) "X-Reve-Error-Code" = ""
  /\ @executeRaw testRuntime (serving truncated200) createRequest []
     = (None, Some (ErrRequest "read response" (ErrOther "unexpected EOF"))).
Proof. split; reflexivity. Qed.

(** C5, amended: once the exchange has produced a response: if its
    [X-Reve-Error-Code] header is not empty, [executeRaw] fails with the API
    error [ParseError] makes of the response, whatever the status (a 2xx
    one included); otherwise, if the body is read without error, it
    succeeds, [ContentViolation] is true exactly when
    [X-Reve-Content-Violation] is the string "true", and the two credit
    counters are [parseIntHeader] of their headers, which is the integer
    [fmt.Sscanf] scans from a header that is not empty, and 0 for an
    absent, an empty and an unscannable header; and if reading the body
    fails, it fails with a request-level error. *)
Theorem executeRaw_reads_headers `{GoRuntime}
    (c : Client) (req : Request) (h h' : Heap)
    (httpReq : http_Request) (resp : http_Response) :
  buildRequest c req h = (inl httpReq, h') ->
  httpClient c httpReq h' = inl resp ->
  let header := Header_Get (resp_Header resp) in
  (header "X-Reve-Error-Code" <> "" ->
     executeRaw c req h
     = (None, Some (ErrAPI (ParseError resp (fst (io_ReadAll resp)))))
     /\ StatusCode (ParseError resp (fst (io_ReadAll resp))) = resp_StatusCode resp)
  /\ (header "X-Reve-Error-Code" = "" ->
      forall data, io_ReadAll resp = (data, None) ->
      exists raw,
        executeRaw c req h = (Some raw, None)
        /\ Data raw = data
        /\ (ContentViolation raw = true <-> header "X-Reve-Content-Violation" = "true")
        /\ CreditsUsed raw = parseIntHeader resp "X-Reve-Credits-Used"
        /\ CreditsRemaining raw = parseIntHeader resp "X-Reve-Credits-Remaining")
  /\ (header "X-Reve-Error-Code" = "" ->
      forall data err, io_ReadAll resp = (data, Some err) ->
      executeRaw c req h = (None, Some (ErrRequest "read response" (ErrOther err))))
  /\ (forall key n,
        header key <> "" -> fmt_Sscanf_d (header key) = Some n ->
        parseIntHeader resp key = n)
  /\ (forall key,
        resp_Header resp !! key = None \/ header key = ""
        \/ fmt_Sscanf_d (header key) = None ->
        parseIntHeader resp key = 0).
Proof.
  intros Hbuild Hdo header. subst header.
  split; [|split; [|split; [|split]]].
  - intros Hcode. unfold executeRaw. rewrite Hbuild, Hdo.
    destruct (String.eqb_spec (Header_Get (resp_Header resp) "X-Reve-Error-Code") "")
      as [He|He]; [contradiction|].
    cbn [negb]. destruct (io_ReadAll resp) as [body rerr]. cbn [fst].
    split; [reflexivity|].
    unfold ParseError.
    destruct (json_Unmarshal body) as [[[code message] params] err].
    reflexivity.
  - intros Hcode data Hread. unfold executeRaw. rewrite Hbuild, Hdo, Hcode, Hread.
    cbn [String.eqb negb]. eexists. split; [reflexivity|].
    cbn [Data ContentViolation CreditsUsed CreditsRemaining].
    repeat split; try reflexivity.
    + apply String.eqb_eq.
    + apply String.eqb_eq.
  - intros Hcode data err Hread. unfold executeRaw.
    rewrite Hbuild, Hdo, Hcode, Hread. reflexivity.
  - intros key n Hval Hscan. unfold parseIntHeader. rewrite Hscan.
    destruct (String.eqb_spec (Header_Get (resp_Header resp) key) "");
      [contradiction | reflexivity].
  - intros key Hkey. unfold parseIntHeader.
    destruct Hkey as [Habs|[Hempty|Hscan]].
    + rewrite (Header_Get_absent _ _ Habs). reflexivity.
    + rewrite Hempty. reflexivity.
    + rewrite Hscan. destruct (String.eqb _ ""); reflexivity.
Qed.

Lemma executeRaw_reads_headers_witness :
  (exists apiErr,
      @executeRaw testRuntime (serving flagged200) createRequest []
      = (None, Some (ErrAPI apiErr))
      /\ StatusCode apiErr = 200)
  /\ (exists raw,
        @executeRaw testRuntime (serving image200) createRequest [] = (Some raw, None)
        /\ ContentViolation raw = true
        /\ CreditsUsed raw = 0 /\ CreditsRemaining raw = 0)
  /\ (exists raw,
        @executeRaw testRuntime (serving billed200) createRequest [] = (Some raw, None)
        /\ ContentViolation raw = false
        /\ CreditsUsed raw = 18 /\ CreditsRemaining raw = 982).
Proof.
  pose proof (@executeRaw_reads_headers testRuntime (serving flagged200)
                createRequest [] _ _ flagged200 eq_refl eq_refl) as (Hfail & _).
  pose proof (@executeRaw_reads_headers testRuntime (serving image200)
                createRequest [] _ _ image200 eq_refl eq_refl)
    as (_ & Hok & _ & _ & Hzero).
  pose proof (@executeRaw_reads_headers testRuntime (serving billed200)
                createRequest [] _ _ billed200 eq_refl eq_refl)
    as (_ & Hbilled & _ & Hint & _).
  cbv zeta in *. split; [|split].
  - eexists. apply Hfail. discriminate.
  - destruct (Hok eq_refl _ eq_refl) as (raw & Hraw & _ & Hcv & Hused & Hrem).
    exists raw. split; [exact Hraw|]. split; [apply Hcv; reflexivity|].
    split.
    + rewrite Hused. apply Hzero. left. reflexivity.
    + rewrite Hrem. apply Hzero. right. right. reflexivity.
  - destruct (Hbilled eq_refl _ eq_refl) as (raw & Hraw & _ & Hcv & Hused & Hrem).
    exists raw. split; [exact Hraw|]. split.
    + destruct (ContentViolation raw); [|reflexivity].
      destruct Hcv as [Hcv _]. discriminate (Hcv eq_refl).
    + split.
      * rewrite Hused. apply Hint; [discriminate | reflexivity].
      * rewrite Hrem. apply Hint; [discriminate | reflexivity].
Defined.

(** ** The request builder *)

(** A reader just made over [data] reads [data], wherever it is made. *)
Lemma NewReader_ReadAll (data : list byte) (h : Heap) :
  fst (Reader_ReadAll (fst (bytes_NewReader data h)) (snd (bytes_NewReader data h)))
  = data.
Proof.
  unfold bytes_NewReader, Reader_ReadAll. cbn [fst snd].
  rewrite list_lookup_middle by reflexivity. reflexivity.
Qed.

Lemma NewReader_fresh (data : list byte) (h : Heap) :
  h !! fst (bytes_NewReader data h) = None.
Proof. cbn. apply lookup_ge_None_2. lia. Qed.

Lemma replay_fresh_readers (data : list byte) (n : nat) (h : Heap) :
  replay (fun h : Heap => let '(l, h) := bytes_NewReader data h in ((l, None), h)) n h
  = replicate n data.
Proof.
  revert h. induction n as [|n IH]; intros h; [reflexivity|].
  cbn [replay replicate].
  pose proof (NewReader_ReadAll data h) as Hread.
  destruct (bytes_NewReader data h) as [l h1]. cbn [fst snd] in Hread.
  destruct (Reader_ReadAll l h1) as [sent h2]. cbn [fst] in Hread. subst sent.
  rewrite IH. reflexivity.
Qed.

(** C8: for a request whose body is present and serializes to [data], the
    request [buildRequest] makes sends [data] as its body and carries a
    [GetBody] that, in whatever state the readers made so far are, returns
    without error a reader not handed out before, from which exactly [data]
    is read; so any number of replays read [data] each time. *)
Theorem GetBody_replays_body `{GoRuntime}
    (c : Client) (req : Request) (v : GoValue) (data : list byte)
    (h h' : Heap) (httpReq : http_Request) :
  Body req = Some v ->
  json_Marshal v = inl data ->
  buildRequest c req h = (inl httpReq, h') ->
  exists bodyReader getBody,
    req_Body httpReq = Some bodyReader
    /\ req_GetBody httpReq = Some getBody
    /\ fst (Reader_ReadAll bodyReader h') = data
    /\ (forall h1 : Heap, exists l h2,
          getBody h1 = ((l, None), h2)
          /\ h1 !! l = None
          /\ fst (Reader_ReadAll l h2) = data)
    /\ (forall (n : nat) (h1 : Heap), replay getBody n h1 = replicate n data).
Proof.
  intros Hbody Hmarshal Hbuild.
  unfold buildRequest in Hbuild. rewrite Hbody, Hmarshal in Hbuild.
  pose proof (NewReader_ReadAll data h) as Hfirst.
  destruct (bytes_NewReader data h) as [bodyReader h0]. cbn [fst snd] in Hfirst.
  unfold http_NewRequestWithContext in Hbuild.
  destruct (http_NewRequest_error _ _); [discriminate|].
  cbn [req_Method req_URL req_Header req_Body] in Hbuild.
  injection Hbuild as <- <-.
  eexists _, _. cbn [req_Body req_GetBody].
  split; [reflexivity|]. split; [reflexivity|]. split; [exact Hfirst|]. split.
  - intros h1.
    exists (fst (bytes_NewReader data h1)), (snd (bytes_NewReader data h1)).
    split; [reflexivity|].
    split; [apply NewReader_fresh | apply NewReader_ReadAll].
  - intros n h1. apply replay_fresh_readers.
Qed.

Lemma GetBody_replays_body_witness :
  exists getBody,
    req_GetBody
      (match fst (@buildRequest testRuntime (serving failed503) createRequest []) with
       | inl httpReq => httpReq
       | inr _ => {| req_Method := ""; req_URL := ""; req_Header := ∅;
                     req_Body := None; req_GetBody := None |}
       end) = Some getBody
    /\ replay getBody 3 [] = replicate 3 (list_byte_of_string "{}").
Proof.
  destruct (@GetBody_replays_body testRuntime (serving failed503) createRequest
              (list_byte_of_string "{}") (list_byte_of_string "{}") [] _ _
              eq_refl eq_refl eq_refl)
    as (bodyReader & getBody & _ & Hget & _ & _ & Hreplay).
  exists getBody. split; [exact Hget | apply Hreplay].
Defined.

(** * Further properties *)

(** ** The ways a run of the retrier ends *)

Section Shape.
Context {A : Type}.
Variable r : Retrier.
Variable w : World A.

(** The five ways a run ends, after [k] retried iterations. *)
Lemma retry_loop_shape (fuel : nat) :
  forall (k : nat) res tr,
    maxRetries r < MaxInt ->
    (forall i, (i < k)%nat -> retried w i) ->
    (k = 0%nat \/ Z.of_nat k <= maxRetries r + 1) ->
    retry_loop r w fuel (Z.of_nat k) (lastErr_upto w k) (trace_upto k)
    = Some (res, tr) ->
    exists n, (k <= n)%nat /\ (forall i, (i < n)%nat -> retried w i) /\
      ((maxRetries r < Z.of_nat n /\ (n = 0%nat \/ Z.of_nat n = maxRetries r + 1)
        /\ res = (None, lastErr_upto w n) /\ tr = trace_upto n)
       \/ (Z.of_nat n <= maxRetries r /\
           ((exists c, (0 < n)%nat /\ wait_select w n = Some c
                       /\ res = (None, Some (ErrContext c))
                       /\ tr = trace_upto n ++ [EvWait (Z.of_nat n)])
            \/ (wait_elapses w n /\
                ((exists resp, fn w n = (resp, None) /\ res = (resp, None)
                               /\ tr = (trace_upto n ++ wait_events n) ++ [EvCall])
                 \/ (exists err, snd (fn w n) = Some err /\ shouldRetry r err = false
                                 /\ res = (None, Some err)
                                 /\ tr = (trace_upto n ++ wait_events n) ++ [EvCall])
                 \/ (exists c, fails_retryably w n /\ ctx_Err w n = Some c
                               /\ res = (None, Some (ErrContext c))
                               /\ tr = ((trace_upto n ++ wait_events n) ++ [EvCall])
                                       ++ [EvCtxErr])))))).
Proof.
  induction fuel as [|fuel IH]; intros k res tr Hmax Hret Hbound Hrun;
    cbn [retry_loop] in Hrun;
    destruct (Z.leb_spec (Z.of_nat k) (maxRetries r)) as [Hle|Hgt];
    try discriminate Hrun.
  1,3: injection Hrun as <- <-; exists k; split; [lia|]; split; [assumption|];
       left; split; [lia|]; split; [|split; reflexivity].
  1,2: lia.
  destruct (wait_elapses_dec w k) as [Hw|(Hk & c & Hsel)].
  - rewrite iteration_after_wait in Hrun by assumption. cbv zeta in Hrun.
    destruct (fn w k) as [resp [err|]] eqn:Hfn.
    + destruct (shouldRetry r err) eqn:Hsr; cbn [negb] in Hrun.
      * assert (Hfail : fails_retryably w k).
        { apply shouldRetry_true in Hsr. destruct Hsr as (a & -> & Ha).
          exists a. rewrite Hfn. auto. }
        destruct (ctx_Err w k) as [c|] eqn:Hc.
        -- injection Hrun as <- <-. exists k. split; [lia|]. split; [assumption|].
           right. split; [assumption|]. right. split; [assumption|].
           right. right. exists c. auto.
        -- rewrite int_wrap_id in Hrun
             by (unfold is_int, MinInt, MaxInt in *; lia).
           replace (Z.of_nat k + 1) with (Z.of_nat (S k)) in Hrun by lia.
           destruct (IH (S k) res tr) as (n & Hn & Hretn & Hshape);
             try assumption; try (right; lia).
           ++ intros i Hi. destruct (Nat.eq_dec i k) as [->|Hne];
                [|apply Hret; lia].
              split; [assumption|]. split; assumption.
           ++ cbn [lastErr_upto trace_upto]. rewrite Hfn. cbn [snd].
              unfold iteration_trace. rewrite <- !app_assoc in *. exact Hrun.
           ++ exists n. split; [lia|]. split; assumption.
      * injection Hrun as <- <-. exists k. split; [lia|]. split; [assumption|].
        right. split; [assumption|]. right. split; [assumption|].
        right. left. exists err. rewrite Hfn. auto.
    + injection Hrun as <- <-. exists k. split; [lia|]. split; [assumption|].
      right. split; [assumption|]. right. split; [assumption|].
      left. exists resp. auto.
  - unfold iteration in Hrun. rewrite calls_trace_upto in Hrun.
    replace (0 <? Z.of_nat k) with true in Hrun
      by (symmetry; apply Z.ltb_lt; lia).
    unfold wait in Hrun. rewrite Hsel in Hrun. injection Hrun as <- <-.
    exists k. split; [lia|]. split; [assumption|].
    right. split; [assumption|]. left. exists c. auto.
Qed.
End Shape.

Lemma wait_attempts_app (tr1 tr2 : list Event) :
  wait_attempts (tr1 ++ tr2) = wait_attempts tr1 ++ wait_attempts tr2.
Proof. unfold wait_attempts. apply omap_app. Qed.

Lemma wait_attempts_trace_upto (k : nat) :
  wait_attempts (trace_upto (S k)) = Z.of_nat <$> seq 1 k.
Proof.
  induction k as [|k IH]; [reflexivity|].
  change (trace_upto (S (S k))) with (trace_upto (S k) ++ iteration_trace (S k)).
  rewrite wait_attempts_app, IH.
  unfold iteration_trace, wait_events.
  replace (0 <? Z.of_nat (S k)) with true by (symmetry; apply Z.ltb_lt; lia).
  rewrite seq_S, fmap_app. reflexivity.
Qed.

Lemma wait_attempts_before_call (k : nat) :
  wait_attempts (trace_upto k ++ wait_events k) = Z.of_nat <$> seq 1 k.
Proof.
  destruct k as [|k]; [reflexivity|].
  rewrite wait_attempts_app, wait_attempts_trace_upto.
  unfold wait_events.
  replace (0 <? Z.of_nat (S k)) with true by (symmetry; apply Z.ltb_lt; lia).
  rewrite seq_S, fmap_app. reflexivity.
Qed.

Lemma head_trace_upto_S (n : nat) (l : list Event) :
  head (trace_upto (S n) ++ l) = Some EvCall.
Proof.
  revert l. induction n as [|n IH]; intros l; [reflexivity|].
  change (trace_upto (S (S n))) with (trace_upto (S n) ++ iteration_trace (S n)).
  rewrite <- app_assoc. apply IH.
Qed.

Lemma head_through_call (k : nat) (tl : list Event) :
  head ((trace_upto k ++ wait_events k) ++ EvCall :: tl) = Some EvCall.
Proof.
  destruct k as [|k]; [reflexivity|].
  rewrite <- app_assoc. apply head_trace_upto_S.
Qed.

Section Corollaries.
Context {A : Type}.
Variable r : Retrier.
Variable w : World A.

Lemma retry_shape (fuel : nat) res tr :
  maxRetries r < MaxInt ->
  retry r w fuel = Some (res, tr) ->
  exists n, (forall i, (i < n)%nat -> retried w i) /\
    ((maxRetries r < Z.of_nat n /\ (n = 0%nat \/ Z.of_nat n = maxRetries r + 1)
      /\ res = (None, lastErr_upto w n) /\ tr = trace_upto n)
     \/ (Z.of_nat n <= maxRetries r /\
         ((exists c, (0 < n)%nat /\ wait_select w n = Some c
                     /\ res = (None, Some (ErrContext c))
                     /\ tr = trace_upto n ++ [EvWait (Z.of_nat n)])
          \/ (wait_elapses w n /\
              ((exists resp, fn w n = (resp, None) /\ res = (resp, None)
                             /\ tr = (trace_upto n ++ wait_events n) ++ [EvCall])
               \/ (exists err, snd (fn w n) = Some err /\ shouldRetry r err = false
                               /\ res = (None, Some err)
                               /\ tr = (trace_upto n ++ wait_events n) ++ [EvCall])
               \/ (exists c, fails_retryably w n /\ ctx_Err w n = Some c
                             /\ res = (None, Some (ErrContext c))
                             /\ tr = ((trace_upto n ++ wait_events n) ++ [EvCall])
                                     ++ [EvCtxErr])))))).
Proof.
  intros Hmax Hrun.
  destruct (retry_loop_shape r w fuel 0 res tr Hmax) as (n & _ & Hret & Hshape);
    try assumption; try (intros; lia); try (left; reflexivity).
  exists n. split; assumption.
Qed.

Ltac shape_cases H :=
  destruct H as
    [(Hgt & Hn & Hres & ->)
    |(Hle & [(xc & Hpos & Hsel & Hres & ->)
            |(Hw & [(xresp & Hfn & Hres & ->)
                   |[(xerr & Hfn & Hno & Hres & ->)
                    |(xc & Hfail & Hc & Hres & ->)]])])].


Lemma retry_wait_numbering (fuel : nat) res tr :
  maxRetries r < MaxInt ->
  retry r w fuel = Some (res, tr) ->
  (tr = [] \/ head tr = Some EvCall)
  /\ exists m : nat,
       wait_attempts tr = Z.of_nat <$> seq 1 m
       /\ (m = 0%nat \/ Z.of_nat m <= maxRetries r)
       /\ (m <= calls tr <= S m)%nat.
Proof.
  intros Hmax Hrun.
  destruct (retry_shape fuel _ _ Hmax Hrun) as (n & Hret & Hshape).
  shape_cases Hshape; clear Hres.
  - destruct n as [|n].
    + split; [left; reflexivity|]. exists 0%nat. cbn. auto with lia.
    + split.
      * right. rewrite <- (app_nil_r (trace_upto (S n))). apply head_trace_upto_S.
      * exists n. rewrite wait_attempts_trace_upto, calls_trace_upto.
        split; [reflexivity|]. split; [right|]; lia.
  - split.
    + right. destruct n as [|n]; [lia|]. apply head_trace_upto_S.
    + exists n. rewrite calls_app, calls_trace_upto.
      replace (trace_upto n ++ [EvWait (Z.of_nat n)])
        with (trace_upto n ++ wait_events n)
        by (unfold wait_events;
            replace (0 <? Z.of_nat n) with true
              by (symmetry; apply Z.ltb_lt; lia); reflexivity).
      rewrite wait_attempts_before_call.
      split; [reflexivity|]. split; [right; lia|]. cbn. lia.
  - split; [right; apply head_through_call|].
    exists n. rewrite calls_through_call, wait_attempts_app, wait_attempts_before_call.
    cbn. rewrite app_nil_r. split; [reflexivity|]. split; [|lia].
    destruct n; [left; reflexivity | right; lia].
  - split; [right; apply head_through_call|].
    exists n. rewrite calls_through_call, wait_attempts_app, wait_attempts_before_call.
    cbn. rewrite app_nil_r. split; [reflexivity|]. split; [|lia].
    destruct n; [left; reflexivity | right; lia].
  - split; [right; rewrite <- app_assoc; apply head_through_call|].
    exists n. rewrite calls_app, calls_through_call.
    rewrite <- app_assoc, wait_attempts_app, wait_attempts_before_call.
    cbn. rewrite !app_nil_r. split; [reflexivity|]. split; [|lia].
    destruct n; [left; reflexivity | right; lia].
Qed.

Lemma retry_negative_budget (fuel : nat) :
  maxRetries r < 0 ->
  retry r w fuel = Some ((None, None), []).
Proof.
  intros Hneg. unfold retry.
  destruct fuel; cbn [retry_loop];
    replace (0 <=? maxRetries r) with false by (symmetry; apply Z.leb_gt; lia);
    reflexivity.
Qed.

End Corollaries.

(** X1: whatever the closure and the context do, [Do] and [DoRaw] return
    once they have fuel for [maxRetries+1] iterations, and they have made
    at most [maxRetries+1] attempts (none when [maxRetries] is negative). *)
Theorem orchestrator_attempt_budget
    (p : Payload) (r : Retrier) (w : World (payload p)) (fuel : nat) :
  maxRetries r < MaxInt ->
  (Z.to_nat (maxRetries r + 1) <= fuel)%nat ->
  exists res tr,
    orchestrator p r w fuel = Some (res, tr)
    /\ (calls tr <= Z.to_nat (maxRetries r + 1))%nat.
Proof.
  intros Hmax Hfuel.
  pose proof (retry_total r w fuel Hmax Hfuel) as H.
  destruct p; exact H.
Qed.

Lemma orchestrator_attempt_budget_witness :
  exists res tr,
    Do testRetrier cancelledInWait 4 = Some (res, tr) /\ (calls tr <= 4)%nat.
Proof.
  apply (orchestrator_attempt_budget Structured testRetrier cancelledInWait 4).
  - cbn. unfold MaxInt. lia.
  - cbn. lia.
Defined.



(** X3: in a run of [Do] or [DoRaw] nothing precedes the first attempt, and
    the waits are entered with the attempt numbers 1, 2, ..., m in this
    order, where [m <= maxRetries] and the attempts made number [m] or
    [m+1]: [wait], and with it [calculateBackoff], is never called with an
    attempt number below 1 or above [maxRetries]. *)
Theorem orchestrator_wait_numbering
    (p : Payload) (r : Retrier) (w : World (payload p)) (fuel : nat)
    (res : option (payload p) * option error) (tr : list Event) :
  maxRetries r < MaxInt ->
  orchestrator p r w fuel = Some (res, tr) ->
  (tr = [] \/ head tr = Some EvCall)
  /\ exists m : nat,
       wait_attempts tr = Z.of_nat <$> seq 1 m
       /\ (m = 0%nat \/ Z.of_nat m <= maxRetries r)
       /\ (m <= calls tr <= S m)%nat.
Proof.
  intros Hmax Hrun.
  apply (retry_wait_numbering r w fuel res tr Hmax).
  destruct p; exact Hrun.
Qed.

Lemma orchestrator_wait_numbering_witness :
  exists m : nat,
    wait_attempts [EvCall; EvCtxErr; EvWait 1; EvCall; EvCtxErr; EvWait 2]
    = Z.of_nat <$> seq 1 m
    /\ (m = 0%nat \/ Z.of_nat m <= 3)
    /\ (m <= 2 <= S m)%nat.
Proof.
  apply (orchestrator_wait_numbering
           Structured testRetrier cancelledInWait 10
           (None, Some (ErrContext Canceled))
           [EvCall; EvCtxErr; EvWait 1; EvCall; EvCtxErr; EvWait 2]).
  - cbn. unfold MaxInt. lia.
  - reflexivity.
Defined.

(** X4: with a negative [maxRetries] the loop body never runs: [Do] and
    [DoRaw] call the closure not once and return neither a response nor an
    error. *)
Theorem orchestrator_negative_budget
    (p : Payload) (r : Retrier) (w : World (payload p)) (fuel : nat) :
  maxRetries r < 0 ->
  orchestrator p r w fuel = Some ((None, None), []).
Proof.
  intros Hneg. pose proof (retry_negative_budget r w fuel Hneg) as H.
  destruct p; exact H.
Qed.

Lemma orchestrator_negative_budget_witness :
  DoRaw (NewRetrier (-1) 10000000 100000000) (background flakyRaw) 10
  = Some ((None, None), []).
Proof.
  apply (orchestrator_negative_budget Raw (NewRetrier (-1) 10000000 100000000)).
  cbn. lia.
Defined.

(** ** The executor and the request builder *)

Section Executor.
Context `{GoRuntime}.
Variable c : Client.
Variable req : Request.
Variable h : Heap.

Lemma buildRequest_cases :
  match buildRequest c req h with
  | (inr err, h') =>
      (exists v e, Body req = Some v /\ json_Marshal v = inr e
                   /\ err = ErrRequest "marshal" (ErrOther e) /\ h' = h)
      \/ (exists e, http_NewRequest_error (Method req) (request_url c req) = Some e
                    /\ err = ErrRequest "create request" (ErrOther e)
                    /\ (forall v, Body req = Some v -> exists data, json_Marshal v = inl data))
  | (inl httpReq, h') =>
      http_NewRequest_error (Method req) (request_url c req) = None
      /\ req_Method httpReq
         = (if String.eqb (Method req) "" then "GET" else Method req)
      /\ req_URL httpReq = http_NewRequest_URL (request_url c req)
      /\ req_Header httpReq
         = Header_Set
             (Header_Set
                (Header_Set
                   (Header_Set ∅ "Authorization" ("Bearer " +:+ apiKey c))
                   "Content-Type" "application/json")
                "User-Agent" (userAgent c))
             "Accept"
             (if negb (String.eqb (Accept req) "") then Accept req
              else "application/json")
      /\ match Body req with
         | None => req_Body httpReq = None /\ req_GetBody httpReq = None /\ h' = h
         | Some v =>
             exists data, json_Marshal v = inl data
                          /\ req_Body httpReq = Some (length h)
                          /\ h' = h ++ [{| rd_s := data; rd_i := 0 |}]
                          /\ is_Some (req_GetBody httpReq)
         end
  end.
Proof.
  unfold buildRequest, request_url.
  destruct (negb (String.eqb (Breadcrumb req) "")).
  all: destruct (Body req) as [v|]; [destruct (json_Marshal v) as [data|e] eqn:Hm|].
  all: try (left; exists v, e; auto; fail).
  all: cbn [bytes_NewReader]; unfold http_NewRequestWithContext;
    destruct (http_NewRequest_error _ _) as [e|] eqn:Hn.
  all: try (right; exists e; split; [reflexivity|]; split; [reflexivity|];
            intros v' Hv'; try discriminate; injection Hv' as <-; eauto; fail).
  all: cbn [req_Method req_URL req_Header req_Body req_GetBody].
  all: repeat split; eauto.
Qed.

Lemma execute_one_result :
  (exists resp, execute c req h = (Some resp, None))
  \/ (exists err, execute c req h = (None, Some err)).
Proof.
  unfold execute.
  destruct (buildRequest c req h) as [[httpReq|err] h']; [|eauto].
  destruct (httpClient c httpReq h') as [resp|e]; [|eauto].
  destruct (io_ReadAll resp) as [body [e|]]; [eauto|].
  destruct (resp_StatusCode resp >=? 400); eauto.
Qed.

Lemma executeRaw_one_result :
  (exists raw, executeRaw c req h = (Some raw, None))
  \/ (exists err, executeRaw c req h = (None, Some err)).
Proof.
  unfold executeRaw.
  destruct (buildRequest c req h) as [[httpReq|err] h']; [|eauto].
  destruct (httpClient c httpReq h') as [resp|e]; [|eauto].
  destruct (negb _); [destruct (io_ReadAll resp); eauto|].
  destruct (io_ReadAll resp) as [body [e|]]; eauto.
Qed.

Lemma isRetryableStatus_ge_400 (status : Z) :
  isRetryableStatus status = true -> 400 <= status.
Proof.
  unfold isRetryableStatus, StatusTooManyRequests, StatusInternalServerError,
    StatusBadGateway, StatusServiceUnavailable, StatusGatewayTimeout.
  repeat match goal with
         | |- context [?a =? ?b] => destruct (Z.eqb_spec a b)
         end; intros; try discriminate; lia.
Qed.

Lemma StatusCode_ParseError (resp : http_Response) (body : list byte) :
  StatusCode (ParseError resp body) = resp_StatusCode resp.
Proof.
  unfold ParseError.
  destruct (json_Unmarshal body) as [[[code message] params] err]. reflexivity.
Qed.

End Executor.

Section ClientLemmas.
Context `{GoRuntime}.
Variable c : Client.
Variable out : Outside.
Variable req : Request.

Lemma execute_on_answer (c' : Client) (h h' : Heap) httpReq resp body :
  buildRequest c' req h = (inl httpReq, h') ->
  httpClient c' httpReq h' = inl resp ->
  io_ReadAll resp = (body, None) ->
  execute c' req h
  = if resp_StatusCode resp >=? 400
    then (None, Some (ErrAPI (ParseError resp body)))
    else (Some {| Resp_Body := body;
                  Resp_Status := resp_StatusCode resp;
                  Resp_RequestID := Header_Get (resp_Header resp) "X-Reve-Request-Id" |},
          None).
Proof. intros Hb Hd Hr. unfold execute. rewrite Hb, Hd, Hr. reflexivity. Qed.

Lemma answers_retryably_json (i : nat) :
  answers_retryably c out req false i -> fails_retryably (execute_world c out req) i.
Proof.
  intros (httpReq & h' & resp & Hb & Hd & Hs & Hr).
  unfold fails_retryably, execute_world. cbn [fn].
  destruct (io_ReadAll resp) as [body rerr] eqn:Hread. cbn [snd] in Hr. subst rerr.
  exists (ParseError resp body).
  rewrite (execute_on_answer _ _ _ _ _ _ Hb Hd Hread).
  replace (resp_StatusCode resp >=? 400) with true
    by (symmetry; apply Z.geb_le; apply isRetryableStatus_ge_400 in Hs; lia).
  split; [reflexivity|]. unfold Retryable. rewrite StatusCode_ParseError. exact Hs.
Qed.

Lemma answers_retryably_raw (i : nat) :
  answers_retryably c out req true i -> fails_retryably (executeRaw_world c out req) i.
Proof.
  intros (httpReq & h' & resp & Hb & Hd & Hs & Hr).
  unfold fails_retryably, executeRaw_world. cbn [fn].
  exists (ParseError resp (fst (io_ReadAll resp))).
  unfold executeRaw. rewrite Hb. cbn [at_call httpClient]. rewrite Hd.
  destruct (String.eqb_spec (Header_Get (resp_Header resp) "X-Reve-Error-Code") "");
    [contradiction|].
  cbn [negb]. destruct (io_ReadAll resp) as [body rerr]. cbn [fst snd].
  split; [reflexivity|]. unfold Retryable. rewrite StatusCode_ParseError. exact Hs.
Qed.

End ClientLemmas.

(** X5: an attempt, in JSON mode and in raw mode, returns either a response
    or an error, never both and never neither. *)
Theorem executor_returns_one_of `{GoRuntime} (c : Client) (req : Request) (h : Heap) :
  ((exists resp, execute c req h = (Some resp, None))
   \/ (exists err, execute c req h = (None, Some err)))
  /\ ((exists raw, executeRaw c req h = (Some raw, None))
      \/ (exists err, executeRaw c req h = (None, Some err))).
Proof. split; [apply execute_one_result | apply executeRaw_one_result]. Qed.

(** X6: in JSON mode, once the request is built: a failed exchange is a
    request-level error of operation "http"; a response whose body cannot
    be read is one of operation "read response", whatever its status; a
    response read in full is an API error when its status is 400 or more,
    and otherwise -- 2xx or not -- a success carrying the body, the status
    and the [X-Reve-Request-Id] header. *)
Theorem execute_by_status `{GoRuntime}
    (c : Client) (req : Request) (h h' : Heap) (httpReq : http_Request) :
  buildRequest c req h = (inl httpReq, h') ->
  (forall e, httpClient c httpReq h' = inr e ->
     execute c req h = (None, Some (ErrRequest "http" (ErrOther e))))
  /\ (forall resp, httpClient c httpReq h' = inl resp ->
        (forall body e, io_ReadAll resp = (body, Some e) ->
           execute c req h = (None, Some (ErrRequest "read response" (ErrOther e))))
        /\ (forall body, io_ReadAll resp = (body, None) ->
              (400 <= resp_StatusCode resp ->
                 execute c req h = (None, Some (ErrAPI (ParseError resp body))))
              /\ (resp_StatusCode resp < 400 ->
                    execute c req h
                    = (Some {| Resp_Body := body;
                               Resp_Status := resp_StatusCode resp;
                               Resp_RequestID :=
                                 Header_Get (resp_Header resp) "X-Reve-Request-Id" |},
                       None)))).
Proof.
  intros Hb. split.
  - intros e Hd. unfold execute. rewrite Hb, Hd. reflexivity.
  - intros resp Hd. split.
    + intros body e Hr. unfold execute. rewrite Hb, Hd, Hr. reflexivity.
    + intros body Hr. rewrite (execute_on_answer req c h h' httpReq resp body Hb Hd Hr).
      split; intros Hs.
      * replace (resp_StatusCode resp >=? 400) with true
          by (symmetry; apply Z.geb_le; lia). reflexivity.
      * replace (resp_StatusCode resp >=? 400) with false
          by (symmetry; rewrite Z.geb_leb; apply Z.leb_gt; lia). reflexivity.
Qed.

Lemma execute_by_status_witness :
  @execute testRuntime (serving (answer 302)) createRequest []
  = (Some {| Resp_Body := list_byte_of_string "{}";
             Resp_Status := 302;
             Resp_RequestID := "req-1" |}, None)
  /\ @execute testRuntime (serving truncated200) createRequest []
     = (None, Some (ErrRequest "read response" (ErrOther "unexpected EOF"))).
Proof.
  split.
  - destruct (@execute_by_status testRuntime (serving (answer 302)) createRequest
                [] _ _ eq_refl) as [_ Hresp].
    destruct (Hresp (answer 302) eq_refl) as [_ Hread].
    apply (Hread (list_byte_of_string "{}") eq_refl). cbn. lia.
  - destruct (@execute_by_status testRuntime (serving truncated200) createRequest
                [] _ _ eq_refl) as [_ Hresp].
    destruct (Hresp truncated200 eq_refl) as [Hbroken _].
    apply (Hbroken (list_byte_of_string "PN") _ eq_refl).
Defined.

(** X7: in JSON mode the error of an attempt is one the retrier retries
    exactly when the exchange produced a response, its body was read, and
    its status is 429, 500, 502, 503 or 504; a failure to build the
    request, to reach the server or to read the body is never retried. *)
Theorem execute_error_retryable `{GoRuntime}
    (c : Client) (req : Request) (h : Heap) (r : Retrier) (err : error) :
  snd (execute c req h) = Some err ->
  (shouldRetry r err = true
   <-> exists httpReq h' resp body,
         buildRequest c req h = (inl httpReq, h')
         /\ httpClient c httpReq h' = inl resp
         /\ io_ReadAll resp = (body, None)
         /\ isRetryableStatus (resp_StatusCode resp) = true).
Proof.
  unfold execute.
  destruct (buildRequest c req h) as [[httpReq|berr] h'] eqn:Hb.
  2: { pose proof (buildRequest_cases c req h) as Hc. rewrite Hb in Hc.
       cbn [snd]. intros [= <-].
       split; [|intros (? & ? & ? & ? & Hx & _); discriminate Hx].
       destruct Hc as [(v & e & _ & _ & -> & _)|(e & _ & -> & _)]; discriminate. }
  destruct (httpClient c httpReq h') as [resp|e] eqn:Hd.
  2: { cbn [snd]. intros [= <-]. split; [discriminate|].
       intros (? & ? & ? & ? & [= <- <-] & Hx & _). congruence. }
  destruct (io_ReadAll resp) as [body [e|]] eqn:Hr.
  { cbn [snd]. intros [= <-]. split; [discriminate|].
    intros (? & ? & ? & ? & [= <- <-] & Hx & Hy & _). congruence. }
  destruct (Z.geb_spec (resp_StatusCode resp) 400) as [Hge|Hlt];
    cbn [snd]; [|discriminate].
  intros [= <-]. cbn [shouldRetry]. unfold Retryable.
  rewrite StatusCode_ParseError. split.
  - intros Hs. exists httpReq, h', resp, body. auto.
  - intros (? & ? & ? & ? & [= <- <-] & Hx & Hy & Hs). congruence.
Qed.

(** X8: in raw mode the error of an attempt is one the retrier retries
    exactly when the exchange produced a response that carries the
    [X-Reve-Error-Code] header and whose status is 429, 500, 502, 503 or
    504: an error reported with a 2xx status is not retried, and neither
    is any failure to build the request, reach the server or read the
    body. *)
Theorem executeRaw_error_retryable `{GoRuntime}
    (c : Client) (req : Request) (h : Heap) (r : Retrier) (err : error) :
  snd (executeRaw c req h) = Some err ->
  (shouldRetry r err = true
   <-> exists httpReq h' resp,
         buildRequest c req h = (inl httpReq, h')
         /\ httpClient c httpReq h' = inl resp
         /\ Header_Get (resp_Header resp) "X-Reve-Error-Code" <> ""
         /\ isRetryableStatus (resp_StatusCode resp) = true).
Proof.
  unfold executeRaw.
  destruct (buildRequest c req h) as [[httpReq|berr] h'] eqn:Hb.
  2: { pose proof (buildRequest_cases c req h) as Hc. rewrite Hb in Hc.
       cbn [snd]. intros [= <-].
       split; [|intros (? & ? & ? & Hx & _); discriminate Hx].
       destruct Hc as [(v & e & _ & _ & -> & _)|(e & _ & -> & _)]; discriminate. }
  destruct (httpClient c httpReq h') as [resp|e] eqn:Hd.
  2: { cbn [snd]. intros [= <-]. split; [discriminate|].
       intros (? & ? & ? & [= <- <-] & Hx & _). congruence. }
  destruct (String.eqb_spec (Header_Get (resp_Header resp) "X-Reve-Error-Code") "")
    as [He|He]; cbn [negb].
  - destruct (io_ReadAll resp) as [body [e|]]; cbn [snd]; [|discriminate].
    intros [= <-]. split; [discriminate|].
    intros (? & ? & ? & [= <- <-] & Hx & Hy & _). congruence.
  - destruct (io_ReadAll resp) as [body rerr]. cbn [snd]. intros [= <-].
    cbn [shouldRetry]. unfold Retryable. rewrite StatusCode_ParseError. split.
    + intros Hs. exists httpReq, h', resp. auto.
    + intros (? & ? & ? & [= <- <-] & Hx & Hy & Hs). congruence.
Qed.


Lemma execute_error_retryable_witness :
  shouldRetry testRetrier (ErrAPI (@ParseError testRuntime failed503 [])) = true.
Proof.
  apply (proj2 (@execute_error_retryable testRuntime (serving failed503)
                  createRequest [] testRetrier _ eq_refl)).
  eexists _, _, failed503, []. repeat split; reflexivity.
Defined.

Lemma executeRaw_error_retryable_witness :
  shouldRetry testRetrier (ErrAPI (@ParseError testRuntime flagged503 [])) = true.
Proof.
  apply (proj2 (@executeRaw_error_retryable testRuntime (serving flagged503)
                  createRequest [] testRetrier _ eq_refl)).
  eexists _, _, flagged503. repeat split; try reflexivity. discriminate.
Defined.

(** ** The request builder, continued *)



(** X10: [buildRequest] fails exactly when the body is present and does not
    serialize, or [http.NewRequestWithContext] refuses the method or the
    URL.  Serialization is tried first, and its failure leaves the readers
    as they were.  Either way the error is a request-level error, of
    operation "marshal" or "create request", which the retrier never
    retries. *)
Theorem buildRequest_fails_iff `{GoRuntime}
    (c : Client) (req : Request) (h : Heap) (r : Retrier) :
  ((exists err h', buildRequest c req h = (inr err, h'))
   <-> (exists v e, Body req = Some v /\ json_Marshal v = inr e)
       \/ http_NewRequest_error (Method req) (request_url c req) <> None)
  /\ (forall v e, Body req = Some v -> json_Marshal v = inr e ->
        buildRequest c req h = (inr (ErrRequest "marshal" (ErrOther e)), h))
  /\ (forall err h', buildRequest c req h = (inr err, h') ->
        shouldRetry r err = false
        /\ exists e, err = ErrRequest "marshal" (ErrOther e)
                     \/ err = ErrRequest "create request" (ErrOther e)).
Proof.
  pose proof (buildRequest_cases c req h) as Hc.
  split; [|split].
  - split.
    + intros (err & h' & Hb). rewrite Hb in Hc.
      destruct Hc as [(v & e & Hv & He & _)|(e & Hn & _)].
      * left. eauto.
      * right. congruence.
    + intros Hfail. destruct (buildRequest c req h) as [[httpReq|err] h'] eqn:Hb;
        [|eauto].
      exfalso. destruct Hc as (Hn & _ & _ & _ & Hbody).
      destruct Hfail as [(v & e & Hv & He)|Hrefused]; [|contradiction].
      rewrite Hv in Hbody. destruct Hbody as (data & Hd & _). congruence.
  - intros v e Hv He. unfold buildRequest. rewrite Hv, He.
    destruct (negb _); reflexivity.
  - intros err h' Hb. rewrite Hb in Hc.
    destruct Hc as [(v & e & _ & _ & -> & _)|(e & _ & -> & _)];
      (split; [reflexivity | exists e; auto]).
Qed.

(** X11: for a descriptor without a body, the request [buildRequest] returns
    has no body reader and no [GetBody], and no reader is made; the only
    way it can fail is that [http.NewRequestWithContext] refuses the
    request. *)
Theorem buildRequest_without_body `{GoRuntime}
    (c : Client) (req : Request) (h : Heap) :
  Body req = None ->
  (forall httpReq h', buildRequest c req h = (inl httpReq, h') ->
     req_Body httpReq = None /\ req_GetBody httpReq = None /\ h' = h)
  /\ (forall err h', buildRequest c req h = (inr err, h') ->
        h' = h /\ exists e, err = ErrRequest "create request" (ErrOther e)).
Proof.
  intros Hnone. pose proof (buildRequest_cases c req h) as Hc. split.
  - intros httpReq h' Hb. rewrite Hb in Hc.
    destruct Hc as (_ & _ & _ & _ & Hbody). rewrite Hnone in Hbody. exact Hbody.
  - intros err h' Hb. split.
    + unfold buildRequest in Hb. rewrite Hnone in Hb.
      destruct (http_NewRequestWithContext _ _ _); [discriminate|].
      injection Hb as _ <-. reflexivity.
    + rewrite Hb in Hc.
      destruct Hc as [(v & e & Hv & _)|(e & _ & -> & _)]; [congruence | eauto].
Qed.

Lemma buildRequest_without_body_witness :
  exists httpReq,
    @buildRequest testRuntime (serving failed503) pingRequest [] = (inl httpReq, [])
    /\ req_Body httpReq = None /\ req_GetBody httpReq = None.
Proof.
  destruct (@buildRequest testRuntime (serving failed503) pingRequest [])
    as [[httpReq|err] h'] eqn:Hb; [|discriminate Hb].
  destruct (@buildRequest_without_body testRuntime (serving failed503) pingRequest
              [] eq_refl) as [Hok _].
  destruct (Hok httpReq h' Hb) as (H1 & H2 & ->).
  exists httpReq. auto.
Defined.

(** ** The client's entry points *)

Section ClientRuns.
Context `{GoRuntime}.
Variable c : Client.
Variable out : Outside.
Variable req : Request.

(** While the context is not done, exchanges answered with retryable
    statuses are iterations the retrier repeats. *)
Lemma answers_retried (raw : bool) (j : nat) :
  (forall i, (i <= j)%nat -> done_in_wait out i = None /\ done_after out i = None) ->
  (forall i, (i < j)%nat -> answers_retryably c out req raw i) ->
  (if raw
   then forall i, (i < j)%nat -> retried (executeRaw_world c out req) i
   else forall i, (i < j)%nat -> retried (execute_world c out req) i)
  /\ (if raw then wait_elapses (executeRaw_world c out req) j
      else wait_elapses (execute_world c out req) j).
Proof.
  intros Hctx Hans. destruct raw; split.
  - intros i Hi. split; [intros _; apply Hctx; lia|].
    split; [apply answers_retryably_raw, Hans, Hi | apply Hctx; lia].
  - intros _. apply Hctx. lia.
  - intros i Hi. split; [intros _; apply Hctx; lia|].
    split; [apply answers_retryably_json, Hans, Hi | apply Hctx; lia].
  - intros _. apply Hctx. lia.
Qed.

End ClientRuns.

(** X12: while the context is not done, [Client.Do] goes through the
    exchanges answered with a retryable status and a readable body, and
    returns the first answer with a status below 400: its body, its status
    and its request id, after one exchange per answer. *)
Theorem Client_Do_returns_first_good_answer `{GoRuntime}
    (c : Client) (out : Outside) (req : Request) (j : nat)
    (httpReq : http_Request) (h' : Heap) (resp : http_Response) (body : list byte) :
  Z.of_nat j <= maxRetries (retrier c) <= MaxInt ->
  (forall i, (i <= j)%nat -> done_in_wait out i = None /\ done_after out i = None) ->
  (forall i, (i < j)%nat -> answers_retryably c out req false i) ->
  buildRequest (at_call c out j) req (store out j) = (inl httpReq, h') ->
  net out j httpReq h' = inl resp ->
  io_ReadAll resp = (body, None) ->
  resp_StatusCode resp < 400 ->
  forall fuel, (j < fuel)%nat ->
  exists tr,
    Client_Do c out req fuel
    = Some ((Some {| Resp_Body := body;
                     Resp_Status := resp_StatusCode resp;
                     Resp_RequestID :=
                       Header_Get (resp_Header resp) "X-Reve-Request-Id" |},
             None), tr)
    /\ calls tr = S j.
Proof.
  intros Hmax Hctx Hans Hb Hd Hr Hs fuel Hfuel.
  destruct (answers_retried c out req false j Hctx Hans) as [Hret Hw].
  destruct (retry_success (retrier c) (execute_world c out req) j fuel
              (Some {| Resp_Body := body;
                       Resp_Status := resp_StatusCode resp;
                       Resp_RequestID :=
                         Header_Get (resp_Header resp) "X-Reve-Request-Id" |}))
    as (tr & Hrun & Hcalls & _); try assumption.
  - cbn [fn execute_world].
    rewrite (execute_on_answer req (at_call c out j) (store out j) h' httpReq resp
               body Hb Hd Hr).
    replace (resp_StatusCode resp >=? 400) with false
      by (symmetry; rewrite Z.geb_leb; apply Z.leb_gt; lia).
    reflexivity.
  - exists tr. split; assumption.
Qed.

Lemma Client_Do_returns_first_good_answer_witness :
  exists tr,
    @Client_Do testRuntime (serving failed503) flakyServer createRequest 10
    = Some ((Some {| Resp_Body := list_byte_of_string "{}";
                     Resp_Status := 200;
                     Resp_RequestID := "req-1" |}, None), tr)
    /\ calls tr = 3%nat.
Proof.
  eapply (@Client_Do_returns_first_good_answer testRuntime (serving failed503)
           flakyServer createRequest 2 _ _ (answer 200) (list_byte_of_string "{}")).
  - cbn. unfold MaxInt. lia.
  - intros i _. split; reflexivity.
  - intros [|[|i]] Hi; try lia;
      (eexists _, _, (answer 503); repeat split; reflexivity).
  - reflexivity.
  - reflexivity.
  - reflexivity.
  - cbn. lia.
  - lia.
Defined.

(** X13: when an exchange fails before any response arrives, [Client.Do]
    returns the request-level error of operation "http" at once: the failed
    exchange is the last thing it does, however much of the retry budget is
    left. *)
Theorem Client_Do_transport_failure_not_retried `{GoRuntime}
    (c : Client) (out : Outside) (req : Request) (j : nat)
    (httpReq : http_Request) (h' : Heap) (e : string) :
  Z.of_nat j <= maxRetries (retrier c) <= MaxInt ->
  (forall i, (i <= j)%nat -> done_in_wait out i = None /\ done_after out i = None) ->
  (forall i, (i < j)%nat -> answers_retryably c out req false i) ->
  buildRequest (at_call c out j) req (store out j) = (inl httpReq, h') ->
  net out j httpReq h' = inr e ->
  forall fuel, (j < fuel)%nat ->
  exists tr,
    Client_Do c out req fuel
    = Some ((None, Some (ErrRequest "http" (ErrOther e))), tr)
    /\ calls tr = S j /\ last tr = Some EvCall.
Proof.
  intros Hmax Hctx Hans Hb Hd fuel Hfuel.
  destruct (answers_retried c out req false j Hctx Hans) as [Hret Hw].
  apply (retry_not_retried (retrier c) (execute_world c out req) j fuel);
    try assumption; try reflexivity.
  cbn [fn execute_world]. unfold execute. rewrite Hb.
  cbn [at_call httpClient]. rewrite Hd. reflexivity.
Qed.

Lemma Client_Do_transport_failure_not_retried_witness :
  exists tr,
    @Client_Do testRuntime (serving failed503) droppedServer createRequest 10
    = Some ((None, Some (ErrRequest "http" (ErrOther "connection refused"))), tr)
    /\ calls tr = 2%nat /\ last tr = Some EvCall.
Proof.
  eapply (@Client_Do_transport_failure_not_retried testRuntime (serving failed503)
           droppedServer createRequest 1 _ _ "connection refused").
  - cbn. unfold MaxInt. lia.
  - intros i _. split; reflexivity.
  - intros [|i] Hi; [|lia].
    eexists _, _, (answer 503). repeat split; reflexivity.
  - reflexivity.
  - reflexivity.
  - lia.
Defined.

(** X14: in raw mode the status of a response is not looked at: when an
    exchange is answered without the [X-Reve-Error-Code] header and the
    body is read, [Client.DoRaw] returns that body as the data of a
    success, after no further exchange -- also when the status is 503 or
    any other error status. *)
Theorem Client_DoRaw_ignores_status `{GoRuntime}
    (c : Client) (out : Outside) (req : Request) (j : nat)
    (httpReq : http_Request) (h' : Heap) (resp : http_Response) (body : list byte) :
  Z.of_nat j <= maxRetries (retrier c) <= MaxInt ->
  (forall i, (i <= j)%nat -> done_in_wait out i = None /\ done_after out i = None) ->
  (forall i, (i < j)%nat -> answers_retryably c out req true i) ->
  buildRequest (at_call c out j) req (store out j) = (inl httpReq, h') ->
  net out j httpReq h' = inl resp ->
  Header_Get (resp_Header resp) "X-Reve-Error-Code" = "" ->
  io_ReadAll resp = (body, None) ->
  forall fuel, (j < fuel)%nat ->
  exists raw tr,
    Client_DoRaw c out req fuel = Some ((Some raw, None), tr)
    /\ Data raw = body
    /\ calls tr = S j /\ last tr = Some EvCall.
Proof.
  intros Hmax Hctx Hans Hb Hd Hcode Hr fuel Hfuel.
  destruct (answers_retried c out req true j Hctx Hans) as [Hret Hw].
  eassert (Hfn : fn (executeRaw_world c out req) j = (Some _, None)).
  { cbn [fn executeRaw_world]. unfold executeRaw. rewrite Hb.
    cbn [at_call httpClient]. rewrite Hd, Hcode, Hr. reflexivity. }
  destruct (retry_success (retrier c) (executeRaw_world c out req) j fuel _
              Hret Hmax Hw Hfn Hfuel) as (tr & Hrun & Hcalls & Hlast).
  eexists _, tr. split; [exact Hrun|]. split; [reflexivity|]. split; assumption.
Qed.

Lemma Client_DoRaw_ignores_status_witness :
  exists raw tr,
    @Client_DoRaw testRuntime (serving failed503) gateway createRequest 10
    = Some ((Some raw, None), tr)
    /\ Data raw = [] /\ calls tr = 1%nat /\ last tr = Some EvCall.
Proof.
  eapply (@Client_DoRaw_ignores_status testRuntime (serving failed503)
           gateway createRequest 0 _ _ failed503 []).
  - cbn. unfold MaxInt. lia.
  - intros i _. split; reflexivity.
  - intros i Hi. lia.
  - reflexivity.
  - reflexivity.
  - reflexivity.
  - reflexivity.
  - lia.
Defined.

(** ** The error classifier, continued *)

Lemma Code_ParseError_inferred `{GoRuntime} (resp : http_Response) (body : list byte) :
  fst (fst (fst (json_Unmarshal body))) = "" ->
  Code (ParseError resp body)
  = if resp_StatusCode resp =? 401 then ErrCodeInvalidAPIKey
    else if resp_StatusCode resp =? 402 then ErrCodeInsufficientFunds
    else if resp_StatusCode resp =? 429 then ErrCodeRateLimit
    else if resp_StatusCode resp =? 500 then ErrCodeInternal
    else "".
Proof.
  unfold ParseError.
  destruct (json_Unmarshal body) as [[[code message] params] err]. cbn [fst].
  intros ->. reflexivity.
Qed.

(** X15: for an error made of a response, the status alone settles three of
    the predicates, whatever the body says: a 401 is an auth error and a
    402 an insufficient-funds error, and neither is retried; a 429 is a
    rate-limit error and is retried. *)
Theorem status_settles_predicates `{GoRuntime} (resp : http_Response) (body : list byte) :
  let apiErr := ParseError resp body in
  (resp_StatusCode resp = 401 -> IsAuthError apiErr = true /\ Retryable apiErr = false)
  /\ (resp_StatusCode resp = 402 ->
        IsInsufficientFunds apiErr = true /\ Retryable apiErr = false)
  /\ (resp_StatusCode resp = 429 -> IsRateLimit apiErr = true /\ Retryable apiErr = true).
Proof.
  cbv zeta. unfold IsAuthError, IsInsufficientFunds, IsRateLimit, Retryable.
  rewrite StatusCode_ParseError.
  split; [|split]; intros Hs; rewrite Hs; (split; [apply orb_true_r | reflexivity]).
Qed.

(** X16: what the body decodes to is kept: a code the body gives is the
    code of the error whatever the status, the parameters are the body's,
    and when decoding succeeds the message is the body's even if it is
    empty -- the status text stands in only when decoding fails. *)
Theorem ParseError_keeps_decoded `{GoRuntime}
    (resp : http_Response) (body : list byte)
    (code message : string) (params : option (list (string * JsonValue)))
    (err : option string) :
  json_Unmarshal body = ((code, message, params), err) ->
  (code <> "" -> Code (ParseError resp body) = code)
  /\ Params (ParseError resp body) = params
  /\ (err = None -> Message (ParseError resp body) = message)
  /\ RequestID (ParseError resp body)
     = Header_Get (resp_Header resp) "X-Reve-Request-Id".
Proof.
  intros Hu. unfold ParseError. rewrite Hu. cbn [Code Params Message RequestID].
  split; [|split; [reflexivity|split; [|reflexivity]]].
  - intros Hc. destruct (String.eqb_spec code ""); [contradiction | reflexivity].
  - intros ->. reflexivity.
Qed.

Lemma ParseError_keeps_decoded_witness :
  Message (@ParseError testRuntime failed503 (list_byte_of_string "{}")) = "".
Proof.
  destruct (@ParseError_keeps_decoded testRuntime failed503 (list_byte_of_string "{}")
              "" "" None None eq_refl) as (_ & _ & Hm & _).
  exact (Hm eq_refl).
Defined.

(** X17: when the body gives no code, the predicates follow the status: the
    error is an auth error exactly for 401, an insufficient-funds error
    exactly for 402, a rate-limit error exactly for 429, and it is never a
    content violation, which no status implies. *)
Theorem predicates_without_code `{GoRuntime} (resp : http_Response) (body : list byte) :
  fst (fst (fst (json_Unmarshal body))) = "" ->
  let apiErr := ParseError resp body in
  (IsAuthError apiErr = true <-> resp_StatusCode resp = 401)
  /\ (IsInsufficientFunds apiErr = true <-> resp_StatusCode resp = 402)
  /\ (IsRateLimit apiErr = true <-> resp_StatusCode resp = 429)
  /\ IsContentViolation apiErr = false.
Proof.
  intros Hcode. cbv zeta.
  unfold IsAuthError, IsInsufficientFunds, IsRateLimit, IsContentViolation.
  rewrite StatusCode_ParseError, (Code_ParseError_inferred resp body Hcode).
  unfold StatusUnauthorized, StatusPaymentRequired, StatusTooManyRequests.
  destruct (Z.eqb_spec (resp_StatusCode resp) 401) as [->|H401];
    [cbn; repeat split; intros; try reflexivity; discriminate|].
  destruct (Z.eqb_spec (resp_StatusCode resp) 402) as [->|H402];
    [cbn; repeat split; intros; try reflexivity; discriminate|].
  destruct (Z.eqb_spec (resp_StatusCode resp) 429) as [->|H429];
    [cbn; repeat split; intros; try reflexivity; discriminate|].
  destruct (resp_StatusCode resp =? 500); cbn;
    repeat split; intros; try reflexivity; try discriminate; contradiction.
Qed.

Lemma predicates_without_code_witness :
  IsRateLimit (@ParseError testRuntime (answer 429) []) = true
  /\ IsContentViolation (@ParseError testRuntime (answer 429) []) = false.
Proof.
  destruct (@predicates_without_code testRuntime (answer 429) [] eq_refl)
    as (_ & _ & Hrate & Hcv).
  cbv zeta in *. split; [apply Hrate; reflexivity | exact Hcv].
Defined.

(** ** The validators *)

Lemma length_nonempty (s : string) : s <> "" -> (1 <= String.length s)%nat.
Proof. destruct s; [congruence | cbn; lia]. Qed.

(** X18: a prompt is accepted exactly when it holds between 1 and 2560
    bytes; the empty prompt, and only it, is reported as empty, and a
    prompt of more than 2560 bytes, and only such a prompt, as too long. *)
Theorem ValidatePrompt_by_length (prompt : string) :
  (ValidatePrompt prompt = None <-> (1 <= String.length prompt <= 2560)%nat)
  /\ (ValidatePrompt prompt = Some ErrEmptyPrompt <-> prompt = "")
  /\ (ValidatePrompt prompt = Some ErrPromptTooLong
      <-> (2560 < String.length prompt)%nat).
Proof.
  unfold ValidatePrompt, MaxPromptLength.
  destruct (String.eqb_spec prompt "") as [->|Hne].
  - cbn. split; [|split]; split; intros Hx; try reflexivity; try discriminate; lia.
  - pose proof (length_nonempty prompt Hne) as Hlen.
    rewrite Z.gtb_ltb.
    destruct (Z.ltb_spec 2560 (Z.of_nat (String.length prompt))) as [Hgt|Hle];
      (split; [|split]); split; intros Hx;
      try reflexivity; try discriminate; try contradiction; lia.
Qed.

(** X19: an instruction is validated as a prompt is, except that the empty
    one is reported with the error of its own; an instruction of more than
    2560 bytes is reported with the prompt's error. *)
Theorem ValidateInstruction_as_prompt (instruction : string) :
  ValidateInstruction instruction
  = match ValidatePrompt instruction with
    | Some ErrEmptyPrompt => Some ErrEmptyInstruction
    | verdict => verdict
    end.
Proof.
  unfold ValidateInstruction, ValidatePrompt.
  destruct (String.eqb instruction ""); [reflexivity|].
  destruct (Z.of_nat (String.length instruction) >? MaxPromptLength); reflexivity.
Qed.

(** X20: a list of reference images is accepted exactly when it holds
    between 1 and 6 images, and only their number is looked at: the verdict
    is the same when every image is replaced by the empty one, which
    ValidateReferenceImage rejects. *)
Theorem ValidateReferenceImages_counts_only (images : list string) :
  (ValidateReferenceImages images = None <-> (1 <= length images <= 6)%nat)
  /\ ValidateReferenceImages (map (fun _ => "") images)
     = ValidateReferenceImages images
  /\ Forall (fun image => ValidateReferenceImage image = Some ErrEmptyReferenceImage)
       (map (fun _ => "") images).
Proof.
  unfold ValidateReferenceImages, MaxReferenceImages.
  split; [|split].
  - destruct (Z.eqb_spec (Z.of_nat (length images)) 0) as [H0|H0].
    + split; [discriminate | lia].
    + rewrite Z.gtb_ltb.
      destruct (Z.ltb_spec 6 (Z.of_nat (length images)));
        split; intros Hx; try reflexivity; try discriminate; lia.
  - rewrite length_map. reflexivity.
  - induction images as [|image images IH]; cbn; constructor;
      [reflexivity | exact IH].
Qed.

(** X21: the validator accepts an aspect ratio exactly when
    AspectRatio.Valid holds of it: the map of the one and the switch of the
    other list the same ratios, and both let the empty ratio pass. *)
Theorem ValidateAspectRatio_agrees_with_Valid (ratio : string) :
  ValidateAspectRatio ratio = None <-> Types.Valid ratio = true.
Proof.
  unfold ValidateAspectRatio, Types.Valid.
  destruct (String.eqb_spec ratio "") as [->|Hne]; [split; reflexivity|].
  cbn [list_to_map foldr uncurry fst snd].
  unfold Types.Ratio16x9, Types.Ratio9x16, Types.Ratio3x2,
    Types.Ratio2x3, Types.Ratio4x3, Types.Ratio3x4, Types.Ratio1x1, Types.RatioAuto.
  repeat (rewrite lookup_insert; case_decide;
          [subst ratio; split; reflexivity|]).
  rewrite lookup_empty. cbn.
  repeat match goal with
         | |- context [String.eqb ratio ?s] =>
             destruct (String.eqb_spec ratio s); [congruence|]
         end.
  cbn. split; discriminate.
Qed.

(** X22: the validator accepts an upscale factor exactly when
    Postprocess.Validate accepts the operation Upscale makes of it, that
    is for 2, 3 and 4; an operation that is not an upscale is valid
    whatever its factor, so RemoveBackground is. *)
Theorem ValidateUpscaleFactor_agrees_with_Validate (factor : Z) :
  (ValidateUpscaleFactor factor = None
   <-> Types.Validate (Types.Upscale factor) = None)
  /\ (ValidateUpscaleFactor factor = None <-> 2 <= factor <= 4)
  /\ (forall p, Types.Validate p <> None ->
        Types.Process p = Types.ProcessUpscale
        /\ ValidateUpscaleFactor (Types.UpscaleFactor p) <> None)
  /\ Types.Validate Types.RemoveBackground = None.
Proof.
  unfold ValidateUpscaleFactor, Types.Validate, Types.Upscale. cbn.
  rewrite Z.gtb_ltb.
  split; [|split; [|split]].
  - destruct ((factor <? 2) || (4 <? factor)); split; intros Hx;
      try reflexivity; discriminate.
  - destruct (Z.ltb_spec factor 2), (Z.ltb_spec 4 factor); cbn;
      split; intros Hx; try reflexivity; try discriminate; lia.
  - intros p Hp.
    destruct (String.eqb_spec (Types.Process p) Types.ProcessUpscale) as [Hproc|Hproc];
      [|contradiction].
    split; [exact Hproc|].
    rewrite Z.gtb_ltb in *.
    destruct ((Types.UpscaleFactor p <? 2) || (4 <? Types.UpscaleFactor p));
      [discriminate | contradiction].
  - reflexivity.
Qed.

(** ** Package types *)

Ltac ratio_cases r :=
  unfold Types.Dimensions, Types.Valid, Types.Ratio16x9, Types.Ratio9x16,
    Types.Ratio3x2, Types.Ratio2x3, Types.Ratio4x3, Types.Ratio3x4,
    Types.Ratio1x1, Types.RatioAuto in *;
  repeat match goal with
         | |- context [String.eqb r ?s] =>
             destruct (String.eqb_spec r s); [subst r; cbn in *|]
         | H : context [String.eqb r ?s] |- _ =>
             destruct (String.eqb_spec r s); [subst r; cbn in *|]
         end;
  cbn in *.

(** X23: Dimensions gives (0, 0) exactly for the ratios that are not valid
    and for the two valid ones without a shape, auto and the empty ratio;
    for every other ratio both dimensions are positive. *)
Theorem Dimensions_zero_iff (r : Types.AspectRatio) :
  (Types.Dimensions r = (0, 0)
   <-> Types.Valid r = false \/ r = Types.RatioAuto \/ r = "")
  /\ (Types.Dimensions r <> (0, 0) ->
        0 < fst (Types.Dimensions r) /\ 0 < snd (Types.Dimensions r)).
Proof.
  split.
  - ratio_cases r;
      (split; [intros Hx; try discriminate; auto
              | intros [Hx|[Hx|Hx]]; try discriminate; try reflexivity; congruence]).
  - ratio_cases r; intros Hx; try (split; reflexivity); contradiction.
Qed.

(** X24: the ratios come in pairs: when a ratio has the dimensions (w, h),
    a valid ratio has the dimensions (h, w). *)
Theorem Dimensions_transposed (r : Types.AspectRatio) :
  exists r',
    Types.Valid r' = true
    /\ Types.Dimensions r' = (snd (Types.Dimensions r), fst (Types.Dimensions r)).
Proof.
  ratio_cases r;
    [exists "9:16" | exists "16:9" | exists "2:3" | exists "3:2"
     | exists "3:4" | exists "4:3" | exists "1:1" | exists ""];
    split; reflexivity.
Qed.

Ltac format_cases ext :=
  unfold Types.DetectFormat, Types.Extension, Types.FormatJSON, Types.FormatPNG,
    Types.FormatJPEG, Types.FormatWebP in *;
  cbv zeta in *;
  repeat match goal with
         | |- context [String.eqb ext ?s] =>
             destruct (String.eqb_spec ext s)
         end;
  cbn in *.

(** X25: the format detected from a path is never JSON; its extension is
    the lower-cased extension of the path when that is one of .png, .jpeg
    and .webp, it is .jpeg for .jpg, and PNG is the format for every other
    extension. *)
Theorem DetectFormat_image_format `{GoLibrary} (path : string) :
  let ext := strings_ToLower (filepath_Ext path) in
  Types.DetectFormat path <> Types.FormatJSON
  /\ (ext = ".png" \/ ext = ".jpeg" \/ ext = ".webp" ->
        Types.Extension (Types.DetectFormat path) = ext)
  /\ (ext = ".jpg" -> Types.Extension (Types.DetectFormat path) = ".jpeg")
  /\ (ext <> ".jpg" -> ext <> ".jpeg" -> ext <> ".webp" ->
        Types.DetectFormat path = Types.FormatPNG).
Proof.
  intros ext. subst ext.
  remember (strings_ToLower (filepath_Ext path)) as ext eqn:Hext.
  unfold Types.DetectFormat. rewrite <- Hext. clear Hext.
  format_cases ext;
    (split; [discriminate|split; [|split]]);
    try (intros [Hx|[Hx|Hx]]); intros; subst;
    try reflexivity; try discriminate; try congruence.
Qed.

(** X26: detection inverts Extension on the image formats: a path whose
    lower-cased extension is the extension of PNG, JPEG or WebP is detected
    as that format. *)
Theorem DetectFormat_inverts_Extension `{GoLibrary} (path : string)
    (f : Types.OutputFormat) :
  f = Types.FormatPNG \/ f = Types.FormatJPEG \/ f = Types.FormatWebP ->
  strings_ToLower (filepath_Ext path) = Types.Extension f ->
  Types.DetectFormat path = f.
Proof.
  intros Hf Hext. unfold Types.DetectFormat. rewrite Hext.
  destruct Hf as [-> | [-> | ->]]; reflexivity.
Qed.

Lemma DetectFormat_inverts_Extension_witness :
  @Types.DetectFormat testLibrary "out/v1.2/Photo.JPEG" = Types.FormatJPEG.
Proof.
  apply (@DetectFormat_inverts_Extension testLibrary "out/v1.2/Photo.JPEG"
           Types.FormatJPEG).
  - right. left. reflexivity.
  - reflexivity.
Defined.

(** X27: an image made of bytes and sent through its base64 text comes
    back: when the encoding of the bytes is not empty and decodes to them,
    Bytes of the image made of Base64 of the image of the bytes gives the
    bytes and no error. *)
Theorem Image_base64_round_trip `{GoLibrary} (data : list byte) :
  base64_EncodeToString data <> "" ->
  base64_DecodeString (base64_EncodeToString data) = (data, None) ->
  Types.Bytes (Types.NewImageFromBase64 (Types.Base64 (Types.NewImage data)))
  = (data, None).
Proof.
  intros Hne Hrt. unfold Types.Base64, Types.NewImage. cbn.
  unfold Types.Bytes, Types.NewImageFromBase64. cbn.
  destruct (String.eqb_spec (base64_EncodeToString data) ""); [contradiction|].
  cbn. exact Hrt.
Qed.

Lemma Image_base64_round_trip_witness :
  @Types.Bytes testLibrary
    (Types.NewImageFromBase64
       (@Types.Base64 testLibrary
          (Types.NewImage (list_byte_of_string "test image data"))))
  = (list_byte_of_string "test image data", None).
Proof.
  apply (@Image_base64_round_trip testLibrary (list_byte_of_string "test image data")).
  - vm_compute. discriminate.
  - vm_compute. reflexivity.
Defined.

(** X28: an image without content has no bytes to give: Bytes of the image
    made of bytes returns them exactly when there is at least one, and for
    no bytes, as for the empty base64 text, it returns the error
    "image is empty" without asking the decoder; Base64 and Size give no
    error there: the encoding of no bytes and the size 0. *)
Theorem empty_Image_has_no_bytes `{GoLibrary} (data : list byte) :
  (Types.Bytes (Types.NewImage data) = (data, None) <-> data <> [])
  /\ Types.Bytes (Types.NewImage []) = ([], Some "image is empty")
  /\ Types.Bytes (Types.NewImageFromBase64 "") = ([], Some "image is empty")
  /\ Types.Base64 (Types.NewImage []) = base64_EncodeToString []
  /\ Types.Size (Types.NewImage []) = 0
  /\ Types.Size (Types.NewImageFromBase64 "") = 0.
Proof.
  split; [|repeat split].
  unfold Types.Bytes, Types.NewImage. cbn.
  destruct data as [|b data]; cbn.
  - split; [discriminate | congruence].
  - rewrite Z.gtb_ltb.
    destruct (Z.ltb_spec 0 (Z.pos (Pos.of_succ_nat (length data)))); [|lia].
    split; [discriminate | reflexivity].
Qed.

(** X29: for an image made of bytes, Size is their number.  For an image
    made of base64 text, Size is an estimate from the length of the text:
    when the text is the padded encoding of n bytes (4 characters for every
    3 bytes begun), Size lies between n and n + 2, and it is n exactly when
    n is a multiple of 3. *)
Theorem Size_estimates_decoded (encoded : string) (n : Z) :
  0 <= n ->
  Z.of_nat (String.length encoded) = 4 * ((n + 2) / 3) ->
  Z.of_nat (String.length encoded) * 3 <= MaxInt ->
  n <= Types.Size (Types.NewImageFromBase64 encoded) <= n + 2
  /\ (Types.Size (Types.NewImageFromBase64 encoded) = n <-> n mod 3 = 0).
Proof.
  intros Hn Hlen Hmax. unfold Types.Size, Types.NewImageFromBase64. cbn.
  rewrite int_wrap_id by (unfold is_int, MinInt, MaxInt in *; lia).
  rewrite Hlen.
  replace (4 * ((n + 2) / 3) * 3) with (3 * ((n + 2) / 3) * 4) by lia.
  rewrite Z.quot_mul by lia.
  pose proof (Z.div_mod (n + 2) 3 ltac:(lia)) as Hdm.
  pose proof (Z.mod_pos_bound (n + 2) 3 ltac:(lia)) as Hb.
  pose proof (Z.div_mod n 3 ltac:(lia)) as Hdn.
  pose proof (Z.mod_pos_bound n 3 ltac:(lia)) as Hbn.
  change (Z.of_nat 0 >? 0) with false. cbv iota.
  split; [lia | split; intros Hx; lia].
Qed.

Lemma Size_estimates_decoded_witness :
  4 <= Types.Size (Types.NewImageFromBase64 "dGVzdA==") <= 4 + 2.
Proof.
  apply (Size_estimates_decoded "dGVzdA==" 4); [lia | reflexivity | vm_compute; discriminate].
Defined.
